(** * LyricLens (InstaMuse): the generation adapter, its line-based recovery,
      the mock generator and the [/generate] route of [app.py].

    The development is a shallow embedding of the Python functions
    [get_mock_response], [parse_gemini_response], [call_gemini] and
    [generate].  Python strings are sequences of Unicode code points,
    Python values are an inductive type, and code that may raise runs in a
    small exception monad.  What belongs to the Python runtime or to third
    party packages and cannot be written down in finite space (the Unicode
    case table behind [str.lower], [int], [json.loads], the remote model,
    werkzeug's [secure_filename], [os.path.splitext]) is a parameter of the
    section that holds the program. *)

From Stdlib Require Import ZArith NArith List String Ascii Bool Lia DecimalString.
Import ListNotations.
Open Scope Z_scope.

(** ** The fragment of the Python runtime used by [app.py] *)

Module Py.

(** A [str] is a list of code points; [ord] is the identity. *)
Definition str := list N.

(** ASCII literals of the source. *)
Definition u (s : string) : str := map N_of_ascii (list_ascii_of_string s).

Definition len {A : Type} (l : list A) : Z := Z.of_nat (List.length l).

Definition ord (c : N) : Z := Z.of_N c.

Fixpoint str_eqb (a b : str) : bool :=
  match a, b with
  | [], [] => true
  | x :: a', y :: b' => N.eqb x y && str_eqb a' b'
  | _, _ => false
  end.

Fixpoint startswith (p s : str) : bool :=
  match p, s with
  | [], _ => true
  | _ :: _, [] => false
  | x :: p', y :: s' => N.eqb x y && startswith p' s'
  end.

(** [sub in s] *)
Fixpoint contains (sub s : str) : bool :=
  startswith sub s ||
  match s with
  | [] => false
  | _ :: t => contains sub t
  end.

(** [s.find(sub)]: index of the first occurrence, [-1] when there is none. *)
Fixpoint find_from (sub s : str) (i : Z) : Z :=
  if startswith sub s then i
  else match s with
       | [] => -1
       | _ :: t => find_from sub t (i + 1)
       end.

Definition find (sub s : str) : Z := find_from sub s 0.

(** [s.rfind(sub)]: index of the last occurrence, [-1] when there is none. *)
Fixpoint rfind_from (sub s : str) (i best : Z) : Z :=
  let best' := if startswith sub s then i else best in
  match s with
  | [] => best'
  | _ :: t => rfind_from sub t (i + 1) best'
  end.

Definition rfind (sub s : str) : Z := rfind_from sub s 0 (-1).

(** Slices [l[lo:hi]] with Python's treatment of negative and oversized
    bounds. *)
Definition clip (n k : Z) : Z :=
  if k <? 0 then Z.max 0 (k + n) else Z.min k n.

Definition slice {A : Type} (lo hi : Z) (l : list A) : list A :=
  let n := len l in
  let a := clip n lo in
  let b := clip n hi in
  firstn (Z.to_nat (b - a)) (skipn (Z.to_nat a) l).

(** [l[:k]] *)
Definition upto {A : Type} (k : Z) (l : list A) : list A := slice 0 k l.

(** [str.isspace] on one code point: the white space of the Unicode
    database, which is what [str.strip()] removes. *)
Definition isspace (c : N) : bool :=
  (((9 <=? c) && (c <=? 13)) || ((28 <=? c) && (c <=? 32)) ||
   (c =? 133) || (c =? 160) || (c =? 5760) ||
   ((8192 <=? c) && (c <=? 8202)) || (c =? 8232) || (c =? 8233) ||
   (c =? 8239) || (c =? 8287) || (c =? 12288))%N.

Fixpoint lstrip (s : str) : str :=
  match s with
  | [] => []
  | c :: t => if isspace c then lstrip t else s
  end.

Definition rstrip (s : str) : str := rev (lstrip (rev s)).

Definition strip (s : str) : str := rstrip (lstrip s).

(** [s.replace(old, new)] for a non-empty [old]: occurrences are taken from
    the left and do not overlap.  [skip] counts the characters of a matched
    occurrence that are still to be dropped. *)
Fixpoint replace_from (old new s : str) (skip : nat) : str :=
  match s with
  | [] => []
  | c :: t =>
      match skip with
      | S k => replace_from old new t k
      | O =>
          if startswith old s
          then new ++ replace_from old new t (List.length old - 1)
          else c :: replace_from old new t 0
      end
  end.

Definition replace (old new s : str) : str := replace_from old new s 0.

(** [s.split(sep)] for a non-empty [sep]; [cur] holds the current part in
    reverse. *)
Fixpoint split_from (sep s : str) (skip : nat) (cur : str) : list str :=
  match s with
  | [] => [rev cur]
  | c :: t =>
      match skip with
      | S k => split_from sep t k cur
      | O =>
          if startswith sep s
          then rev cur :: split_from sep t (List.length sep - 1) []
          else split_from sep t 0 (c :: cur)
      end
  end.

Definition split (sep s : str) : list str := split_from sep s 0 [].

(** [str(n)] for an integer. *)
Definition str_of_int (n : Z) : str := u (NilZero.string_of_int (Z.to_int n)).

(** *** Exceptions *)

Inductive exn : Type :=
| JSONDecodeError
| TypeError
| KeyError
| IndexError
| ZeroDivisionError
| ValueError
| OtherError (msg : str).

Inductive res (A : Type) : Type :=
| Ok (a : A)
| Raise (e : exn).
Arguments Ok {A} a.
Arguments Raise {A} e.

Definition bind {A B : Type} (c : res A) (k : A -> res B) : res B :=
  match c with
  | Ok a => k a
  | Raise e => Raise e
  end.

(** [try: c  except Exception: h] *)
Definition try_except {A : Type} (c : res A) (h : exn -> res A) : res A :=
  match c with
  | Ok a => Ok a
  | Raise e => h e
  end.

(** *** Values *)

#[warnings="-register-all"]
Inductive value : Type :=
| VNone
| VBool (b : bool)
| VInt (n : Z)
| VFloat (literal : str)
| VStr (s : str)
| VList (l : list value)
| VDict (d : list (str * value)).

(** Dictionaries keep insertion order; a key occurs once. *)
Fixpoint lookup (k : str) (d : list (str * value)) : option value :=
  match d with
  | [] => None
  | (k', v) :: d' => if str_eqb k k' then Some v else lookup k d'
  end.

Definition has_key (k : str) (d : list (str * value)) : bool :=
  match lookup k d with
  | Some _ => true
  | None => false
  end.

Definition is_str (k : str) (v : value) : bool :=
  match v with
  | VStr s => str_eqb s k
  | _ => false
  end.

(** [k in v] for a string [k]. *)
Definition py_in (k : str) (v : value) : res bool :=
  match v with
  | VDict d => Ok (has_key k d)
  | VList l => Ok (existsb (is_str k) l)
  | VStr s => Ok (contains k s)
  | _ => Raise TypeError
  end.

(** [v[k]] for a string [k]. *)
Definition getitem (v : value) (k : str) : res value :=
  match v with
  | VDict d =>
      match lookup k d with
      | Some x => Ok x
      | None => Raise KeyError
      end
  | _ => Raise TypeError
  end.

(** [v[:n]] *)
Definition value_upto (n : Z) (v : value) : res value :=
  match v with
  | VList l => Ok (VList (upto n l))
  | VStr s => Ok (VStr (upto n s))
  | _ => Raise TypeError
  end.

(** [for x in v]: the items a loop over [v] visits. *)
Definition iter (v : value) : res (list value) :=
  match v with
  | VList l => Ok l
  | VStr s => Ok (map (fun c => VStr [c]) s)
  | VDict d => Ok (map (fun kv => VStr (fst kv)) d)
  | _ => Raise TypeError
  end.

(** [l[i]] on a list, negative indices counting from the end. *)
Definition index {A : Type} (l : list A) (i : Z) : res A :=
  let j := if i <? 0 then i + len l else i in
  if j <? 0 then Raise IndexError
  else match nth_error l (Z.to_nat j) with
       | Some x => Ok x
       | None => Raise IndexError
       end.

(** [a % b]; Python's remainder has the sign of the divisor, as [Z.modulo]. *)
Definition pymod (a b : Z) : res Z :=
  if b =? 0 then Raise ZeroDivisionError else Ok (a mod b).

(** [v[i]] for an integer [i]. *)
Definition value_index (v : value) (i : Z) : res value :=
  match v with
  | VList l => index l i
  | VStr s => bind (index s i) (fun c => Ok (VStr [c]))
  | VDict _ => Raise KeyError
  | _ => Raise TypeError
  end.

(** [len(v)] *)
Definition value_len (v : value) : res Z :=
  match v with
  | VList l => Ok (len l)
  | VStr s => Ok (len s)
  | VDict d => Ok (len d)
  | _ => Raise TypeError
  end.

End Py.

Import Py.

Notation "x <- c ;; k" := (bind c (fun x => k))
  (at level 61, c at next level, right associativity).

(** ** The program *)

Module App.

Section Program.

(** [str.lower]: the case mapping of the runtime's Unicode database. *)
Variable lower : str -> str.

(** [int(s)] on a string: the integer, or the exception it raises. *)
Variable py_int : str -> res Z.

(** [json.loads]. *)
Variable json_loads : str -> res value.

(** The module-level [GEMINI_API_KEY], read from the environment. *)
Variable GEMINI_API_KEY : option str.

(** Lines 67 to 123 and [response.text]: the image is opened, the enhanced
    prompt (a function of [prompt] and [max_outputs]) is built and sent with
    the image to the remote model.  The outcome is the text of the response
    or the exception raised on the way. *)
Variable generate_content : str -> list Byte.byte -> Z -> res str.

(** [werkzeug.utils.secure_filename] and [os.path.splitext]. *)
Variable secure_filename : str -> str.
Variable splitext : str -> str * str.

(** The dictionary [{'captions': ..., 'songs': ...}] the adapter returns. *)
Record response : Type := mkResponse { captions : value; songs : list value }.

(** *** [get_mock_response] *)

Definition song (title artist : str) : value :=
  VDict [(u "title", VStr title); (u "artist", VStr artist)].

Definition base_captions : list value :=
  [ VStr (u "Stolen moments under golden skies");
    VStr (u "When the world felt like a soft melody");
    VStr (u "Sunlit streets and quiet thoughts");
    VStr (u "Lost in the little things");
    VStr (u "Weekend chapters written in sunlight");
    VStr (u "Chasing light and finding magic");
    VStr (u "Simple moments, infinite beauty") ].

Definition bollywood_songs : list value :=
  [ song (u "Tum Hi Ho") (u "Arijit Singh");
    song (u "Raabta") (u "Arijit Singh");
    song (u "Channa Mereya") (u "Arijit Singh");
    song (u "Tera Ban Jaunga") (u "Tulsi Kumar & Akhil Sachdeva");
    song (u "Kesariya") (u "Arijit Singh");
    song (u "Phir Bhi Tumko Chaahunga") (u "Arijit Singh");
    song (u "Dil Diyan Gallan") (u "Atif Aslam") ].

Definition hollywood_songs : list value :=
  [ song (u "Golden Hour") (u "Joji");
    song (u "Sunflower") (u "Post Malone");
    song (u "Levitating") (u "Dua Lipa");
    song (u "Blinding Lights") (u "The Weeknd");
    song (u "Watermelon Sugar") (u "Harry Styles");
    song (u "Good 4 U") (u "Olivia Rodrigo");
    song (u "Stay") (u "The Kid LAROI & Justin Bieber") ].

Definition tollywood_songs : list value :=
  [ song (u "Ala Vaikunthapurramuloo") (u "Armaan Malik");
    song (u "Inkem Inkem") (u "Sid Sriram");
    song (u "Samajavaragamana") (u "Sid Sriram");
    song (u "Vachinde") (u "Madhu Priya");
    song (u "Rangamma Mangamma") (u "MM Manasi");
    song (u "Buttabomma") (u "Armaan Malik");
    song (u "Ramuloo Ramulaa") (u "Anurag Kulkarni") ].

Definition kpop_songs : list value :=
  [ song (u "Dynamite") (u "BTS");
    song (u "Butter") (u "BTS");
    song (u "How You Like That") (u "BLACKPINK");
    song (u "Gangnam Style") (u "PSY");
    song (u "Next Level") (u "aespa");
    song (u "Savage") (u "aespa");
    song (u "LALISA") (u "LISA") ].

(** Lines 279 to 287: the pool [base_songs] is bound to. *)
Definition select_songs (prompt : str) : list value :=
  if contains (u "bollywood") (lower prompt) then bollywood_songs
  else if contains (u "tollywood") (lower prompt) then tollywood_songs
  else if contains (u "kpop") (lower prompt)
          || contains (u "k-pop") (lower prompt) then kpop_songs
  else if contains (u "hollywood") (lower prompt) then hollywood_songs
  else hollywood_songs.

(** [sum(ord(c) for c in prompt)] *)
Definition sum_ord (prompt : str) : Z :=
  fold_left (fun acc c => acc + ord c) prompt 0.

(** Line 290. *)
Definition seed_of (prompt : str) : res Z :=
  match prompt with
  | [] => Ok 0
  | _ :: _ => pymod (sum_ord prompt) (len base_captions)
  end.

(** [range(n)] *)
Definition range (n : Z) : list Z := map Z.of_nat (seq 0 (Z.to_nat n)).

(** Lines 293 to 295, over the values [i] still to visit. *)
Fixpoint mock_loop (base_songs : list value) (seed : Z) (todo : list Z)
    (caps sngs : list value) : res (list value * list value) :=
  match todo with
  | [] => Ok (caps, sngs)
  | i :: todo' =>
      ci <- pymod (seed + i) (len base_captions) ;;
      c <- index base_captions ci ;;
      si <- pymod (seed + i) (len base_songs) ;;
      s <- index base_songs si ;;
      mock_loop base_songs seed todo' (caps ++ [c]) (sngs ++ [s])
  end.

Definition get_mock_response (prompt : str) (max_outputs : Z) : res response :=
  let base_songs := select_songs prompt in
  seed <- seed_of prompt ;;
  out <- mock_loop base_songs seed (range max_outputs) [] [] ;;
  Ok {| captions := VList (fst out); songs := snd out |}.

(** *** [parse_gemini_response] *)

Inductive section_name : Type := InCaptions | InSongs.

(** The variables of the loop over the lines. *)
Record parser : Type := mkParser {
  p_captions : list value;
  p_songs : list value;
  current_section : option section_name
}.

Definition in_section (want : section_name) (cur : option section_name) : bool :=
  match cur, want with
  | Some InCaptions, InCaptions => true
  | Some InSongs, InSongs => true
  | _, _ => false
  end.

(** The three code points of the literal in the third [replace]. *)
Definition bullet : str := [226; 8364; 162]%N.

(** Lines 195 and 201. *)
Definition cleanup (line : str) : str :=
  strip (replace bullet [] (replace (u "-") [] (replace (u "*") [] line))).

(** Lines 202 to 209: what the songs branch does with a cleaned line. *)
Definition song_of_line (song_line : str) : res (list value) :=
  if contains (u " by ") song_line then
    let parts := split (u " by ") song_line in
    p0 <- index parts 0 ;;
    p1 <- index parts 1 ;;
    Ok [song (strip p0) (strip p1)]
  else if contains (u " - ") song_line then
    let parts := split (u " - ") song_line in
    p0 <- index parts 0 ;;
    p1 <- index parts 1 ;;
    Ok [song (strip p0) (strip p1)]
  else if negb (str_eqb song_line []) && (len song_line >? 3) then
    Ok [song song_line (u "Unknown Artist")]
  else Ok [].

(** Lines 182 to 209: one turn of the loop. *)
Definition parse_line (max_outputs : Z) (st : parser) (raw : str) : res parser :=
  let line := strip raw in
  if str_eqb line [] then Ok st
  else if contains (u "caption") (lower line) && (len (p_captions st) =? 0) then
    Ok (mkParser (p_captions st) (p_songs st) (Some InCaptions))
  else if contains (u "song") (lower line) && (len (p_songs st) =? 0) then
    Ok (mkParser (p_captions st) (p_songs st) (Some InSongs))
  else if in_section InCaptions (current_section st)
          && (len (p_captions st) <? max_outputs) then
    let caption := cleanup line in
    if negb (str_eqb caption []) && (len caption >? 5)
    then Ok (mkParser (p_captions st ++ [VStr caption]) (p_songs st)
                      (current_section st))
    else Ok st
  else if in_section InSongs (current_section st)
          && (len (p_songs st) <? max_outputs) then
    new <- song_of_line (cleanup line) ;;
    Ok (mkParser (p_captions st) (p_songs st ++ new) (current_section st))
  else Ok st.

Fixpoint parse_lines (max_outputs : Z) (st : parser) (lines : list str)
    : res parser :=
  match lines with
  | [] => Ok st
  | raw :: rest =>
      st' <- parse_line max_outputs st raw ;;
      parse_lines max_outputs st' rest
  end.

(** Lines 214 to 217: [while len(l) < max_outputs: l.append(mock[len(l) %
    len(mock)])].  Every turn makes [l] one longer, so the loop takes at most
    [max_outputs - len(l)] turns; [fuel] is that bound (see [fill_ok]). *)
Fixpoint pad (fuel : nat) (max_outputs : Z) (mock : value) (l : list value)
    : res (list value) :=
  match fuel with
  | O => Ok l
  | S fuel' =>
      if len l <? max_outputs then
        n <- value_len mock ;;
        i <- pymod (len l) n ;;
        x <- value_index mock i ;;
        pad fuel' max_outputs mock (l ++ [x])
      else Ok l
  end.

Definition fill (max_outputs : Z) (mock : value) (l : list value)
    : res (list value) :=
  pad (Z.to_nat (max_outputs - len l)) max_outputs mock l.

Definition newline : str := [10%N].

Definition parse_gemini_response (response_text : str) (max_outputs : Z)
    : res response :=
  st <- parse_lines max_outputs (mkParser [] [] None)
          (split newline response_text) ;;
  filled <-
    (if (len (p_captions st) <? max_outputs) || (len (p_songs st) <? max_outputs)
     then
       mock_data <- get_mock_response [] max_outputs ;;
       cs <- fill max_outputs (captions mock_data) (p_captions st) ;;
       ss <- fill max_outputs (VList (songs mock_data)) (p_songs st) ;;
       Ok (cs, ss)
     else Ok (p_captions st, p_songs st)) ;;
  Ok {| captions := VList (upto max_outputs (fst filled));
        songs := upto max_outputs (snd filled) |}.

(** *** [call_gemini] *)

(** Lines 147 to 155: what one turn of the loop appends. *)
Definition format_song (entry : value) : res (list value) :=
  match entry with
  | VDict d =>
      if has_key (u "title") d && has_key (u "artist") d
      then Ok [entry] else Ok []
  | VStr s =>
      let parts := split (u " - ") s in
      if len parts >=? 2 then
        p0 <- index parts 0 ;;
        p1 <- index parts 1 ;;
        Ok [song (strip p0) (strip p1)]
      else Ok [song (strip s) (u "Unknown Artist")]
  | _ => Ok []
  end.

Fixpoint format_songs (entries : list value) (formatted_songs : list value)
    : res (list value) :=
  match entries with
  | [] => Ok formatted_songs
  | e :: rest =>
      new <- format_song e ;;
      format_songs rest (formatted_songs ++ new)
  end.

(** Lines 131 to 160, the body of the inner [try]: [Some r] when it returns
    [r], [None] when control leaves it without a [return]. *)
Definition try_json (response_text : str) (max_outputs : Z)
    : res (option response) :=
  let start_idx := find (u "{") response_text in
  let end_idx := rfind (u "}") response_text + 1 in
  if negb (start_idx =? -1) && negb (end_idx =? 0) then
    let json_str := slice start_idx end_idx response_text in
    result <- json_loads json_str ;;
    has_captions <- py_in (u "captions") result ;;
    has_songs <- (if has_captions then py_in (u "songs") result else Ok false) ;;
    if has_captions && has_songs then
      all_captions <- getitem result (u "captions") ;;
      caps <- value_upto max_outputs all_captions ;;
      all_songs <- getitem result (u "songs") ;;
      sngs <- value_upto max_outputs all_songs ;;
      entries <- iter sngs ;;
      formatted_songs <- format_songs entries [] ;;
      Ok (Some {| captions := caps; songs := formatted_songs |})
    else Ok None
  else Ok None.

(** [not GEMINI_API_KEY] *)
Definition no_key : bool :=
  match GEMINI_API_KEY with
  | None => true
  | Some [] => true
  | Some (_ :: _) => false
  end.

(** Lines 126 to 165, the body of the outer [try] after the remote call. *)
Definition handle_response (raw : str) (max_outputs : Z) : res response :=
  let response_text := strip raw in
  match try_json response_text max_outputs with
  | Ok (Some r) => Ok r
  | Ok None => parse_gemini_response response_text max_outputs
  | Raise JSONDecodeError => parse_gemini_response response_text max_outputs
  | Raise e => Raise e
  end.

Definition call_gemini (prompt : str) (image_bytes : list Byte.byte)
    (max_outputs : Z) : res response :=
  if no_key then get_mock_response prompt max_outputs
  else
    try_except
      (raw <- generate_content prompt image_bytes max_outputs ;;
       handle_response raw max_outputs)
      (fun _ => get_mock_response prompt max_outputs).

(** *** The route [generate] *)

(** The parts of the request the route reads: the uploaded file (name and
    content) and the form fields, each absent or present. *)
Record request : Type := mkRequest {
  image : option (str * list Byte.byte);
  form_length : option str;
  form_tone : option str;
  form_region : option str;
  form_mood : option str;
  form_num : option str
}.

(** [request.form.get(name, default)] *)
Definition form_get (field : option str) (default : str) : str :=
  match field with
  | Some v => v
  | None => default
  end.

(** Lines 907 to 911. *)
Definition read_num (field : option str) : Z :=
  match py_int (form_get field (u "3")) with
  | Ok num => Z.max 1 (Z.min 6 num)
  | Raise _ => 3
  end.

Definition UPLOAD_EXTENSIONS : list str := [u ".jpg"; u ".jpeg"; u ".png"].

(** Lines 914 to 929. *)
Definition build_prompt (num : Z) (length tone region mood : str) : str :=
  u "You are a social-media assistant. I will provide a photo. Generate "
  ++ str_of_int num ++ u " caption suggestions and " ++ str_of_int num
  ++ u " song suggestions." ++ newline
  ++ newline
  ++ u "CRITICAL REQUIREMENTS:" ++ newline
  ++ u "- Caption length: " ++ length ++ newline
  ++ u "- Tone: " ++ tone ++ u " " ++ newline
  ++ u "- Song region: " ++ region
  ++ u " (THIS IS MANDATORY - only suggest songs from this region)" ++ newline
  ++ u "- Song mood: " ++ mood ++ newline
  ++ newline
  ++ u "For song region '" ++ region ++ u "':" ++ newline
  ++ u "- bollywood: Only Hindi/Bollywood songs (Arijit Singh, Shreya Ghoshal, A.R. Rahman, etc.)"
  ++ newline
  ++ u "- hollywood: Only English/Western pop songs" ++ newline
  ++ u "- tollywood: Only Telugu cinema songs" ++ newline
  ++ u "- kpop: Only Korean pop songs" ++ newline
  ++ u "- any: Mix from different regions" ++ newline
  ++ newline
  ++ u "Provide captions as single lines and songs with title and artist.".

(** What [jsonify] is given. *)
Inductive body : Type :=
| ErrorBody (error : str)
| ExceptionBody (e : exn)
| ResultBody (captions : value) (songs : list value).

(** The route from line 891 on: the status code and the body, or the
    exception that escapes the view function.  [req] holds what
    [request.files.get] and [request.form.get] returned; a body larger than
    [MAX_CONTENT_LENGTH] (line 42) is answered 413 by Flask when the view
    reads [request.files], before any of this, and is not a [request].  The
    debug [print] calls are taken to return. *)
Definition generate (req : request) : res (Z * body) :=
  match image req with
  | None => Ok (400, ErrorBody (u "No image uploaded"))
  | Some ([], _) => Ok (400, ErrorBody (u "No image uploaded"))
  | Some (name, img_bytes) =>
      let filename := secure_filename name in
      let ext := lower (snd (splitext filename)) in
      if negb (existsb (str_eqb ext) UPLOAD_EXTENSIONS)
      then Ok (400, ErrorBody (u "Unsupported file type"))
      else
        let length := form_get (form_length req) (u "medium") in
        let tone := form_get (form_tone req) (u "aesthetic") in
        let region := form_get (form_region req) (u "any") in
        let mood := form_get (form_mood req) (u "chill") in
        let num := read_num (form_num req) in
        let prompt := build_prompt num length tone region mood in
        match call_gemini prompt img_bytes num with
        | Raise e => Ok (500, ExceptionBody e)
        | Ok response =>
            caps <- value_upto num (captions response) ;;
            Ok (200, ResultBody caps (upto num (songs response)))
        end
  end.

End Program.

End App.

(** ** Instances of the runtime parameters

    Each agrees with the Python function it stands for on the inputs the
    examples below feed it. *)

Module Demo.

(** [str.lower] on ASCII text. *)
Definition ascii_lower (s : str) : str :=
  map (fun c => if ((65 <=? c) && (c <=? 90))%N then (c + 32)%N else c) s.

Fixpoint digits (s : str) (acc : Z) : option Z :=
  match s with
  | [] => Some acc
  | c :: t =>
      if ((48 <=? c) && (c <=? 57))%N
      then digits t (10 * acc + (Z.of_N c - 48))
      else None
  end.

(** [int] on an optionally signed run of ASCII digits, white space around it
    ignored; anything else is a [ValueError]. *)
Definition decimal_int (s : str) : res Z :=
  let body := strip s in
  let parse (sign : Z) (ds : str) :=
    match ds with
    | [] => Raise ValueError
    | _ :: _ =>
        match digits ds 0 with
        | Some n => Ok (sign * n)
        | None => Raise ValueError
        end
    end in
  match body with
  | 45%N :: ds => parse (-1) ds
  | 43%N :: ds => parse 1 ds
  | _ => parse 1 body
  end.

(** A finite part of the graph of [json.loads]: the listed texts decode to
    the listed values, every other text is rejected. *)
Fixpoint loads_table (table : list (str * value)) (text : str) : res value :=
  match table with
  | [] => Raise JSONDecodeError
  | (t, v) :: rest => if str_eqb text t then Ok v else loads_table rest text
  end.

(** The remote model answering every call with the same text. *)
Definition answers (text : str) : str -> list Byte.byte -> Z -> res str :=
  fun _ _ _ => Ok text.

(** The remote call failing. *)
Definition fails (e : exn) : str -> list Byte.byte -> Z -> res str :=
  fun _ _ _ => Raise e.

(** [os.path.splitext] on a name without directory part that does not begin
    with a dot. *)
Fixpoint split_last_dot (s : str) (root cur : str) (seen : bool) : str * str :=
  match s with
  | [] => if seen then (rev root, rev cur) else (rev cur, [])
  | c :: t =>
      if (c =? 46)%N
      then split_last_dot t (if seen then cur ++ root else cur) [c] true
      else split_last_dot t root (c :: cur) seen
  end.

Definition splitext (s : str) : str * str := split_last_dot s [] [] false.

End Demo.
Import App Demo.

(** ** Vocabulary of the statements and inputs of the examples *)

(** The entry of [pool] the loop picks at turn [i]. *)
Definition pick (pool : list value) (seed i : Z) : value :=
  nth (Z.to_nat ((seed + i) mod len pool)) pool VNone.

(** The value line 290 binds [seed] to. *)
Definition seed_value (prompt : str) : Z :=
  match prompt with
  | [] => 0
  | _ :: _ => sum_ord prompt mod len base_captions
  end.

(** A dictionary with a [title] key and an [artist] key. *)
Definition song_record (v : value) : bool :=
  match v with
  | VDict d => has_key (u "title") d && has_key (u "artist") d
  | _ => false
  end.

(** Every element of [l] is such a dictionary. *)
Definition all_records (l : list value) : Prop :=
  Forall (fun v => song_record v = true) l.

(** What the JSON path appends for one entry of the songs array. *)
Definition formatted (entry : value) : list value :=
  match format_song entry with
  | Ok l => l
  | Raise _ => []
  end.

(** The songs of a list all come from [pool]. *)
Definition drawn_from (pool l : list value) : Prop :=
  Forall (fun s => In s pool) l.

(** [s] between double quotes. *)
Definition quoted (s : str) : str := [34%N] ++ s ++ [34%N].

(** The first bytes of a PNG file. *)
Definition png : list Byte.byte := [Byte.x89; Byte.x50; Byte.x4e; Byte.x47].

(** A request with an accepted image and the given [num] field. *)
Definition photo_request (num : option str) : request :=
  mkRequest (Some (u "photo.png", png)) None None None None num.

(** A well-formed answer of the model with one caption and no song, and its
    decoding. *)
Definition short_json : str :=
  u "{" ++ quoted (u "captions") ++ u ": [" ++ quoted (u "Only one")
  ++ u "], " ++ quoted (u "songs") ++ u ": []}".

Definition short_value : value :=
  VDict [(u "captions", VList [VStr (u "Only one")]); (u "songs", VList [])].

(** An answer whose songs are plain strings, and its decoding. *)
Definition dashed_json : str :=
  u "{" ++ quoted (u "captions") ++ u ": [" ++ quoted (u "A day out") ++ u ", "
  ++ quoted (u "Blue hour") ++ u "], " ++ quoted (u "songs") ++ u ": ["
  ++ quoted (u "Title - Artist") ++ u ", " ++ quoted (u "Solo") ++ u "]}".

Definition dashed_value : value :=
  VDict [(u "captions", VList [VStr (u "A day out"); VStr (u "Blue hour")]);
         (u "songs", VList [VStr (u "Title - Artist"); VStr (u "Solo")])].

(** An answer in plain text, one song line with a dash. *)
Definition dash_lines : str := u "Songs" ++ newline ++ u "Title - Artist".

(** An answer that is not JSON, followed by a song line. *)
Definition broken_json_lines : str :=
  u "{oops}" ++ newline ++ u "Songs" ++ newline ++ u "Abcd by Efgh".

(** The prompt the route builds for a request (lines 903 to 929). *)
Definition prompt_of (py_int : str -> res Z) (req : request) : str :=
  build_prompt (read_num py_int (form_num req))
    (form_get (form_length req) (u "medium"))
    (form_get (form_tone req) (u "aesthetic"))
    (form_get (form_region req) (u "any"))
    (form_get (form_mood req) (u "chill")).

(** [v[:n]] can be taken: [v] is a list or a string. *)
Definition sliceable (v : value) : bool :=
  match v with
  | VList _ | VStr _ => true
  | _ => false
  end.

(** The number of items of a list or string value, 0 for other values. *)
Definition size (v : value) : Z :=
  match v with
  | VList l => len l
  | VStr s => len s
  | _ => 0
  end.

(** A caption as line-based recovery returns it: a string of more than five
    characters with no asterisk and no hyphen in it. *)
Definition clean_caption (v : value) : Prop :=
  exists c, v = VStr c /\ 5 < len c /\ ~ In 42%N c /\ ~ In 45%N c.

(** A song with a title that is not empty. *)
Definition proper_song (v : value) : Prop :=
  exists title artist, v = song title artist /\ title <> [].

(** A line that is no header for line-based recovery: neither "caption" nor
    "song" occurs in its stripped, lower-cased text. *)
Definition no_header (lower : str -> str) (raw : str) : Prop :=
  contains (u "caption") (lower (strip raw)) = false
  /\ contains (u "song") (lower (strip raw)) = false.

(** An entry of the songs array the JSON path keeps: a string, or a
    dictionary with a [title] key and an [artist] key. *)
Definition kept (entry : value) : bool :=
  match entry with
  | VStr _ => true
  | _ => song_record entry
  end.

(** Lines 79 to 86 of [call_gemini], for one parameter:
    [prompt.split(marker)[1].split(".")[0].strip()] when [marker] occurs in
    the prompt, the default otherwise. *)
Definition prompt_param (marker default prompt : str) : res str :=
  if contains marker prompt then
    after <- index (split marker prompt) 1 ;;
    first <- index (split (u ".") after) 0 ;;
    Ok (strip first)
  else Ok default.

(** Lines 73 to 86: the region, mood, tone and length [call_gemini] reads
    back from the prompt for its enhanced prompt. *)
Definition prompt_params (prompt : str) : res (str * str * str * str) :=
  region <- prompt_param (u "Song region: ") (u "any") prompt ;;
  mood <- prompt_param (u "Song mood: ") (u "chill") prompt ;;
  tone <- prompt_param (u "Tone: ") (u "aesthetic") prompt ;;
  length <- prompt_param (u "Caption length: ") (u "medium") prompt ;;
  Ok (region, mood, tone, length).

(** [m] and [l] agree as far as the shorter of them goes. *)
Fixpoint agree (m l : str) : bool :=
  match m, l with
  | [], _ => true
  | _, [] => true
  | x :: m', y :: l' => N.eqb x y && agree m' l'
  end.

(** No occurrence of [m], complete or cut off by the end of [l], begins in
    [l]. *)
Fixpoint no_start (m l : str) : bool :=
  match l with
  | [] => true
  | _ :: t => negb (agree m l) && no_start m t
  end.

(** A lower-case ASCII letter. *)
Definition lowercase (c : N) : bool := ((97 <=? c) && (c <=? 122))%N.

(** What [call_gemini] reads back as the region from the prompt of the
    route: the region and the text that follows it, up to the first period
    of the prompt after it. *)
Definition region_read_back (region mood : str) : str :=
  region ++ u " (THIS IS MANDATORY - only suggest songs from this region)"
  ++ newline ++ u "- Song mood: " ++ mood ++ newline
  ++ newline
  ++ u "For song region '" ++ region ++ u "':" ++ newline
  ++ u "- bollywood: Only Hindi/Bollywood songs (Arijit Singh, Shreya Ghoshal, A".

(** Likewise what it reads back as the mood, the tone and the length. *)
Definition mood_read_back (region mood : str) : str :=
  mood ++ newline
  ++ newline
  ++ u "For song region '" ++ region ++ u "':" ++ newline
  ++ u "- bollywood: Only Hindi/Bollywood songs (Arijit Singh, Shreya Ghoshal, A".

Definition tone_read_back (tone region mood : str) : str :=
  tone ++ u " " ++ newline ++ u "- Song region: "
  ++ region_read_back region mood.

Definition length_read_back (length tone region mood : str) : str :=
  length ++ newline ++ u "- Tone: " ++ tone_read_back tone region mood.

(** Further answers of the model, with their decodings: an object without
    songs, an object with a number for captions, an object with songs of
    several kinds, and an object with strings for arrays. *)
Definition no_songs_json : str :=
  u "{" ++ quoted (u "captions") ++ u ": [" ++ quoted (u "A day out") ++ u "]}".

Definition no_songs_value : value :=
  VDict [(u "captions", VList [VStr (u "A day out")])].

Definition number_json : str :=
  u "{" ++ quoted (u "captions") ++ u ": 5, " ++ quoted (u "songs") ++ u ": []}".

Definition number_value : value :=
  VDict [(u "captions", VInt 5); (u "songs", VList [])].

Definition mixed_json : str :=
  u "{" ++ quoted (u "captions") ++ u ": [" ++ quoted (u "A day out") ++ u "], "
  ++ quoted (u "songs") ++ u ": [{" ++ quoted (u "title") ++ u ": "
  ++ quoted (u "Stay") ++ u ", " ++ quoted (u "artist") ++ u ": "
  ++ quoted (u "Rihanna") ++ u ", " ++ quoted (u "year") ++ u ": 2012}, 7, "
  ++ quoted (u "Solo") ++ u "]}".

Definition mixed_value : value :=
  VDict [(u "captions", VList [VStr (u "A day out")]);
         (u "songs",
          VList [VDict [(u "title", VStr (u "Stay"));
                        (u "artist", VStr (u "Rihanna"));
                        (u "year", VInt 2012)];
                 VInt 7;
                 VStr (u "Solo")])].



(** ** Properties *)

(** *** Lists, indices and remainders *)

Lemma len_nonneg {A : Type} (l : list A) : 0 <= len l.
Proof. unfold len. lia. Qed.

Lemma len_app {A : Type} (l m : list A) : len (l ++ m) = len l + len m.
Proof. unfold len. rewrite length_app. lia. Qed.

Lemma len_map {A B : Type} (f : A -> B) (l : list A) : len (map f l) = len l.
Proof. unfold len. now rewrite length_map. Qed.

Lemma index_ok {A : Type} (d : A) (l : list A) (i : Z) :
  0 <= i < len l -> index l i = Ok (nth (Z.to_nat i) l d).
Proof.
  intros [Hlo Hhi]. unfold index.
  destruct (i <? 0) eqn:Hneg; [apply Z.ltb_lt in Hneg; lia|].
  rewrite Hneg.
  rewrite (nth_error_nth' l d); [reflexivity|].
  unfold len in Hhi. lia.
Qed.

Lemma pymod_ok (a b : Z) : b <> 0 -> pymod a b = Ok (a mod b).
Proof.
  intros Hb. unfold pymod. destruct (b =? 0) eqn:E; [|reflexivity].
  apply Z.eqb_eq in E. contradiction.
Qed.

Lemma len_range (n : Z) : len (range n) = Z.max 0 n.
Proof. unfold range, len. rewrite length_map, length_seq. lia. Qed.

Lemma range_nth (n i : Z) :
  0 <= i < n -> nth (Z.to_nat i) (range n) 0 = i.
Proof.
  intros H. unfold range.
  change 0 with (Z.of_nat 0%nat) at 1.
  rewrite map_nth, seq_nth; lia.
Qed.

(** *** The mock generator *)

Lemma len_base_captions : len base_captions = 7.
Proof. reflexivity. Qed.

Lemma seed_of_ok (prompt : str) : seed_of prompt = Ok (seed_value prompt).
Proof. destruct prompt; reflexivity. Qed.

Lemma select_songs_cases (lower : str -> str) (prompt : str) :
  select_songs lower prompt = bollywood_songs \/
  select_songs lower prompt = tollywood_songs \/
  select_songs lower prompt = kpop_songs \/
  select_songs lower prompt = hollywood_songs.
Proof.
  unfold select_songs.
  destruct (contains (u "bollywood") (lower prompt)); [auto|].
  destruct (contains (u "tollywood") (lower prompt)); [auto|].
  destruct (contains (u "kpop") (lower prompt)
            || contains (u "k-pop") (lower prompt)); [auto|].
  destruct (contains (u "hollywood") (lower prompt)); auto.
Qed.

Lemma len_select_songs (lower : str -> str) (prompt : str) :
  len (select_songs lower prompt) = 7.
Proof.
  destruct (select_songs_cases lower prompt) as [H|[H|[H|H]]];
    rewrite H; reflexivity.
Qed.

Lemma index_pick (pool : list value) (seed i : Z) :
  0 < len pool ->
  index pool ((seed + i) mod len pool) = Ok (pick pool seed i).
Proof.
  intros Hpos. apply index_ok. apply Z.mod_pos_bound. assumption.
Qed.

Lemma mock_loop_ok (pool : list value) (seed : Z) (todo : list Z) :
  0 < len pool ->
  forall caps sngs,
    mock_loop pool seed todo caps sngs =
    Ok (caps ++ map (pick base_captions seed) todo,
        sngs ++ map (pick pool seed) todo).
Proof.
  intros Hpos. induction todo as [|i todo IH]; intros caps sngs;
    cbn [mock_loop map].
  - now rewrite !app_nil_r.
  - rewrite pymod_ok by (rewrite len_base_captions; lia).
    cbn [bind]. rewrite index_pick by (rewrite len_base_captions; lia).
    cbn [bind]. rewrite pymod_ok by lia.
    cbn [bind]. rewrite index_pick by assumption.
    cbn [bind]. rewrite IH, <- !app_assoc. reflexivity.
Qed.

(** The mock generator returns, and this is what it returns. *)
Lemma get_mock_response_ok (lower : str -> str) (prompt : str) (n : Z) :
  get_mock_response lower prompt n =
  Ok {| captions := VList (map (pick base_captions (seed_value prompt)) (range n));
        songs := map (pick (select_songs lower prompt) (seed_value prompt))
                     (range n) |}.
Proof.
  unfold get_mock_response. rewrite seed_of_ok. cbn [bind].
  rewrite mock_loop_ok by (rewrite len_select_songs; lia).
  reflexivity.
Qed.

(** *** Strings *)

Lemma startswith_incl (p s : str) : startswith p s = true -> incl p s.
Proof.
  revert s. induction p as [|x p IH]; intros s H.
  - intros y [].
  - destruct s as [|y s]; simpl in H; [discriminate|].
    apply andb_true_iff in H. destruct H as [Hxy Hp].
    apply N.eqb_eq in Hxy. subst y.
    intros z [->|Hz]; [now left|]. right. now apply (IH s).
Qed.

Lemma contains_incl (p s : str) :
  p <> [] -> contains p s = true -> incl p s.
Proof.
  intros Hp. induction s as [|y s IH]; simpl; intros H.
  - rewrite orb_false_r in H. destruct p; [contradiction|discriminate].
  - apply orb_true_iff in H. destruct H as [H|H].
    + now apply startswith_incl.
    + intros z Hz. right. now apply IH.
Qed.

Lemma startswith_app (p t : str) : startswith p (p ++ t) = true.
Proof.
  induction p as [|x p IH]; simpl; [reflexivity|].
  now rewrite N.eqb_refl, IH.
Qed.

Lemma contains_startswith (p s : str) :
  startswith p s = true -> contains p s = true.
Proof. intros H. destruct s; simpl; now rewrite H. Qed.

Lemma contains_app (p a b : str) : contains p (a ++ p ++ b) = true.
Proof.
  induction a as [|x a IH].
  - rewrite app_nil_l. apply contains_startswith, startswith_app.
  - cbn [app contains]. rewrite IH. apply orb_true_r.
Qed.

Lemma lstrip_incl (s : str) : incl (lstrip s) s.
Proof.
  induction s as [|c s IH]; simpl; [apply incl_refl|].
  destruct (isspace c); [now apply incl_tl|apply incl_refl].
Qed.

Lemma strip_incl (s : str) : incl (strip s) s.
Proof.
  unfold strip, rstrip. intros x Hx.
  apply lstrip_incl. apply in_rev. apply (lstrip_incl (rev (lstrip s))).
  now apply in_rev in Hx.
Qed.

Lemma replace_from_incl (old s : str) (k : nat) :
  incl (replace_from old [] s k) s.
Proof.
  revert k. induction s as [|c s IH]; intros k; simpl; [apply incl_refl|].
  destruct k as [|k].
  - destruct (startswith old (c :: s)).
    + simpl. apply incl_tl, IH.
    + intros x [->|Hx]; [now left|right; now apply (IH 0%nat)].
  - apply incl_tl, IH.
Qed.

(** Removing ["-"] leaves no hyphen behind. *)
Lemma replace_hyphen (s : str) (k : nat) :
  ~ In 45%N (replace_from (u "-") [] s k).
Proof.
  revert k. induction s as [|c s IH]; intros k; cbn [replace_from];
    [simpl; tauto|].
  destruct k as [|k]; [|apply IH].
  destruct (startswith (u "-") (c :: s)) eqn:E.
  - rewrite app_nil_l. apply IH.
  - intros [H|H]; [|now apply (IH 0%nat)].
    subst c. destruct s; discriminate E.
Qed.

Lemma cleanup_no_hyphen (line : str) : ~ In 45%N (cleanup line).
Proof.
  unfold cleanup, replace. intros H.
  apply strip_incl, replace_from_incl in H.
  now apply replace_hyphen in H.
Qed.

(** The separator [" - "] never survives the cleanup: the second branch of
    the songs mode cannot be taken. *)
Lemma cleanup_no_dash_separator (line : str) :
  contains (u " - ") (cleanup line) = false.
Proof.
  destruct (contains (u " - ") (cleanup line)) eqn:E; [|reflexivity].
  exfalso. apply (cleanup_no_hyphen line).
  apply (contains_incl (u " - ")); [discriminate|assumption|].
  right. now left.
Qed.

Lemma split_from_length (sep s : str) (k : nat) (cur : str) :
  (1 <= List.length (split_from sep s k cur))%nat.
Proof.
  revert k cur. induction s as [|c s IH]; intros k cur; simpl; [lia|].
  destruct k; [|apply IH].
  destruct (startswith sep (c :: s)); [simpl; lia|apply IH].
Qed.

Lemma split_two (sep s : str) (cur : str) :
  sep <> [] -> contains sep s = true ->
  (2 <= List.length (split_from sep s 0 cur))%nat.
Proof.
  intros Hsep. revert cur. induction s as [|c s IH]; intros cur H.
  - simpl in H. rewrite orb_false_r in H.
    destruct sep; [contradiction|discriminate].
  - cbn [split_from]. cbn [contains] in H.
    destruct (startswith sep (c :: s)) eqn:E.
    + simpl. pose proof (split_from_length sep s (List.length sep - 1) []). lia.
    + simpl in H. now apply IH.
Qed.


Lemma split_skip (sep pre rest cur : str) :
  split_from sep (pre ++ rest) (List.length pre) cur = split_from sep rest 0 cur.
Proof.
  induction pre as [|c pre IH]; simpl; [reflexivity|assumption].
Qed.

Lemma startswith_app_long (p x y : str) :
  (List.length p <= List.length x)%nat ->
  startswith p (x ++ y) = startswith p x.
Proof.
  revert x. induction p as [|c p IH]; intros [|d x] H; simpl in *;
    try reflexivity; try lia.
  rewrite IH by lia. reflexivity.
Qed.

(** The first part ends where the separator first occurs. *)
Lemma split_first (sep a rest cur : str) :
  sep <> [] ->
  contains sep (a ++ removelast sep) = false ->
  split_from sep (a ++ sep ++ rest) 0 cur
  = (rev cur ++ a) :: split_from sep rest 0 [].
Proof.
  intros Hsep. revert cur. induction a as [|x a IH]; intros cur H.
  - destruct sep as [|c sep']; [contradiction|].
    rewrite app_nil_l, app_nil_r.
    change ((c :: sep') ++ rest) with (c :: sep' ++ rest).
    cbn [split_from].
    change (c :: sep' ++ rest) with ((c :: sep') ++ rest).
    rewrite startswith_app. f_equal.
    replace (List.length (c :: sep') - 1)%nat with (List.length sep')
      by (simpl; lia).
    apply split_skip.
  - cbn [app contains] in H. apply orb_false_iff in H. destruct H as [H1 H2].
    cbn [app split_from].
    assert (E : startswith sep (x :: a ++ sep ++ rest) = false).
    { rewrite (app_removelast_last 0%N Hsep) at 2.
      rewrite <- app_assoc.
      change (x :: a ++ removelast sep ++ [last sep 0%N] ++ rest)
        with ((x :: a) ++ removelast sep ++ [last sep 0%N] ++ rest).
      rewrite app_assoc, startswith_app_long; [exact H1|].
      rewrite length_app. cbn [List.length].
      assert (Hl : List.length sep
                   = (List.length (removelast sep) + 1)%nat).
      { rewrite (app_removelast_last 0%N Hsep) at 1.
        now rewrite length_app. }
      lia. }
    rewrite E, IH by assumption. cbn [rev]. now rewrite <- app_assoc.
Qed.

(** *** Song records *)

Lemma pools_are_records :
  all_records bollywood_songs /\ all_records hollywood_songs /\
  all_records tollywood_songs /\ all_records kpop_songs.
Proof. repeat split; repeat constructor. Qed.

Lemma select_songs_records (lower : str -> str) (prompt : str) :
  all_records (select_songs lower prompt).
Proof.
  destruct pools_are_records as (Hb & Hh & Ht & Hk).
  destruct (select_songs_cases lower prompt) as [H|[H|[H|H]]];
    rewrite H; assumption.
Qed.

Lemma pick_in (pool : list value) (seed i : Z) :
  0 < len pool -> In (pick pool seed i) pool.
Proof.
  intros Hpos. unfold pick. apply nth_In.
  pose proof (Z.mod_pos_bound (seed + i) (len pool) Hpos).
  unfold len in *. lia.
Qed.

Lemma map_pick_in (pool : list value) (seed : Z) (todo : list Z) :
  0 < len pool -> Forall (fun s => In s pool) (map (pick pool seed) todo).
Proof.
  intros Hpos. apply Forall_forall. intros s Hs.
  apply in_map_iff in Hs. destruct Hs as (i & <- & _). now apply pick_in.
Qed.

Lemma firstn_incl {A : Type} (n : nat) (l : list A) : incl (firstn n l) l.
Proof.
  intros x Hx. rewrite <- (firstn_skipn n l). apply in_or_app. now left.
Qed.

Lemma skipn_incl {A : Type} (n : nat) (l : list A) : incl (skipn n l) l.
Proof.
  intros x Hx. rewrite <- (firstn_skipn n l). apply in_or_app. now right.
Qed.

Lemma upto_incl {A : Type} (k : Z) (l : list A) : incl (upto k l) l.
Proof.
  unfold upto, slice. intros x Hx.
  apply firstn_incl in Hx. now apply skipn_incl in Hx.
Qed.

Lemma upto_records (k : Z) (l : list value) :
  all_records l -> all_records (upto k l).
Proof.
  unfold all_records. rewrite !Forall_forall. intros H x Hx.
  apply H. now apply (upto_incl k).
Qed.

Lemma len_upto {A : Type} (k : Z) (l : list A) :
  0 <= k <= len l -> len (upto k l) = k.
Proof.
  intros H. unfold upto, slice, clip.
  replace (0 <? 0) with false by reflexivity.
  destruct (k <? 0) eqn:E; [apply Z.ltb_lt in E; lia|].
  pose proof (len_nonneg l).
  rewrite Z.min_l by lia. rewrite Z.min_l by lia.
  unfold len. cbn [Z.to_nat skipn]. rewrite length_firstn.
  unfold len in H. lia.
Qed.

(** *** Line-based recovery *)

Lemma split_parts (sep s : str) :
  sep <> [] -> contains sep s = true ->
  exists p0 p1 rest, split sep s = p0 :: p1 :: rest.
Proof.
  intros Hsep H. pose proof (split_two sep s [] Hsep H) as L.
  unfold split. destruct (split_from sep s 0 []) as [|p0 [|p1 rest]];
    simpl in L; try lia.
  now exists p0, p1, rest.
Qed.

Lemma index_first_two {A : Type} (x y : A) (l : list A) :
  index (x :: y :: l) 0 = Ok x /\ index (x :: y :: l) 1 = Ok y.
Proof. split; reflexivity. Qed.

Lemma song_of_line_ok (song_line : str) :
  exists l, song_of_line song_line = Ok l /\ all_records l.
Proof.
  unfold song_of_line.
  destruct (contains (u " by ") song_line) eqn:Hby.
  - destruct (split_parts (u " by ") song_line) as (p0 & p1 & rest & E);
      [discriminate|assumption|].
    rewrite E. destruct (index_first_two p0 p1 rest) as [-> ->].
    eexists. split; [reflexivity|]. repeat constructor.
  - destruct (contains (u " - ") song_line) eqn:Hdash.
    + destruct (split_parts (u " - ") song_line) as (p0 & p1 & rest & E);
        [discriminate|assumption|].
      rewrite E. destruct (index_first_two p0 p1 rest) as [-> ->].
      eexists. split; [reflexivity|]. repeat constructor.
    + destruct (negb (str_eqb song_line []) && (len song_line >? 3));
        eexists; (split; [reflexivity|]); repeat constructor.
Qed.

Section Recovery.

Variable lower : str -> str.

Lemma parse_line_ok (max_outputs : Z) (st : parser) (raw : str) :
  all_records (p_songs st) ->
  exists st', parse_line lower max_outputs st raw = Ok st'
              /\ all_records (p_songs st').
Proof.
  intros Hst. unfold parse_line.
  destruct (str_eqb (strip raw) []); [now exists st|].
  destruct (contains (u "caption") (lower (strip raw))
            && (len (p_captions st) =? 0));
    [eexists; split; [reflexivity|assumption]|].
  destruct (contains (u "song") (lower (strip raw))
            && (len (p_songs st) =? 0));
    [eexists; split; [reflexivity|assumption]|].
  destruct (in_section InCaptions (current_section st)
            && (len (p_captions st) <? max_outputs)).
  { destruct (negb (str_eqb (cleanup (strip raw)) [])
              && (len (cleanup (strip raw)) >? 5));
      eexists; (split; [reflexivity|assumption]). }
  destruct (in_section InSongs (current_section st)
            && (len (p_songs st) <? max_outputs)); [|now exists st].
  destruct (song_of_line_ok (cleanup (strip raw))) as (new & -> & Hnew).
  eexists. split; [reflexivity|]. cbn [p_songs].
  apply Forall_app. now split.
Qed.

Lemma parse_lines_ok (max_outputs : Z) (lines : list str) :
  forall st, all_records (p_songs st) ->
  exists st', parse_lines lower max_outputs st lines = Ok st'
              /\ all_records (p_songs st').
Proof.
  induction lines as [|raw rest IH]; intros st Hst; cbn [parse_lines].
  - now exists st.
  - destruct (parse_line_ok max_outputs st raw Hst) as (st1 & -> & H1).
    cbn [bind]. now apply IH.
Qed.

Lemma pad_ok (max_outputs : Z) (mock : list value) :
  0 < len mock ->
  forall fuel l,
  exists l', pad fuel max_outputs (VList mock) l = Ok l'
             /\ (forall P : value -> Prop, Forall P l -> Forall P mock -> Forall P l')
             /\ (max_outputs - len l <= Z.of_nat fuel -> max_outputs <= len l').
Proof.
  intros Hpos. induction fuel as [|fuel IH]; intros l; cbn [pad].
  - exists l. repeat split; [auto|lia].
  - destruct (len l <? max_outputs) eqn:G.
    + cbn [value_len bind]. rewrite pymod_ok by lia. cbn [bind value_index].
      rewrite (index_ok VNone) by (apply Z.mod_pos_bound; assumption).
      cbn [bind].
      set (x := nth (Z.to_nat (len l mod len mock)) mock VNone).
      assert (Hx : In x mock).
      { apply nth_In. pose proof (Z.mod_pos_bound (len l) (len mock) Hpos).
        unfold len in *. lia. }
      destruct (IH (l ++ [x])) as (l' & E & HP & Hlen).
      exists l'. split; [exact E|]. split.
      * intros P Hl Hm. apply HP; [|assumption].
        apply Forall_app. split; [assumption|].
        constructor; [|constructor]. rewrite Forall_forall in Hm. now apply Hm.
      * intros Hf. apply Hlen. rewrite len_app. change (len [x]) with 1. lia.
    + exists l. repeat split; [auto|]. apply Z.ltb_ge in G. lia.
Qed.

Lemma fill_ok (max_outputs : Z) (mock l : list value) :
  0 < len mock ->
  exists l', fill max_outputs (VList mock) l = Ok l'
             /\ (forall P : value -> Prop, Forall P l -> Forall P mock -> Forall P l')
             /\ max_outputs <= len l'.
Proof.
  intros Hpos. unfold fill.
  destruct (pad_ok max_outputs mock Hpos
              (Z.to_nat (max_outputs - len l)) l) as (l' & E & HP & Hlen).
  exists l'. repeat split; [assumption|assumption|]. apply Hlen. lia.
Qed.

(** Line-based recovery returns; its songs are records; and both lists have
    exactly [max_outputs] entries. *)
Lemma parse_gemini_response_ok (response_text : str) (max_outputs : Z) :
  exists cs ss,
    parse_gemini_response lower response_text max_outputs
    = Ok {| captions := VList cs; songs := ss |}
    /\ all_records ss
    /\ (0 <= max_outputs -> len cs = max_outputs /\ len ss = max_outputs).
Proof.
  unfold parse_gemini_response.
  destruct (parse_lines_ok max_outputs (split newline response_text)
              (mkParser [] [] None)) as (st & -> & Hst); [constructor|].
  cbn [bind].
  destruct ((len (p_captions st) <? max_outputs)
            || (len (p_songs st) <? max_outputs)) eqn:G.
  - rewrite get_mock_response_ok. cbn [bind captions songs].
    assert (Hmax : 0 < max_outputs).
    { pose proof (len_nonneg (p_captions st)).
      pose proof (len_nonneg (p_songs st)).
      apply orb_true_iff in G. destruct G as [G|G]; apply Z.ltb_lt in G; lia. }
    set (mc := map (pick base_captions (seed_value [])) (range max_outputs)).
    set (ms := map (pick (select_songs lower []) (seed_value []))
                   (range max_outputs)).
    assert (Hmc : 0 < len mc)
      by (unfold mc; rewrite len_map, len_range; lia).
    assert (Hms : 0 < len ms)
      by (unfold ms; rewrite len_map, len_range; lia).
    destruct (fill_ok max_outputs mc (p_captions st) Hmc) as (cs & -> & _ & Lc).
    destruct (fill_ok max_outputs ms (p_songs st) Hms) as (ss & -> & HP & Ls).
    cbn [bind fst snd]. eexists. eexists. split; [reflexivity|]. split.
    + apply upto_records. apply HP; [assumption|].
      unfold ms. apply Forall_forall. intros s Hs.
      pose proof (select_songs_records lower []) as R.
      unfold all_records in R. rewrite Forall_forall in R. apply R.
      pose proof (map_pick_in (select_songs lower []) (seed_value [])
                    (range max_outputs)) as M.
      rewrite Forall_forall in M. apply M; [|assumption].
      rewrite len_select_songs. lia.
    + intros _. split; apply len_upto; lia.
  - cbn [bind fst snd]. eexists. eexists. split; [reflexivity|]. split.
    + now apply upto_records.
    + apply orb_false_iff in G. destruct G as [G1 G2].
      apply Z.ltb_ge in G1, G2. intros H. split; apply len_upto; lia.
Qed.

End Recovery.

(** *** The adapter *)

Lemma format_song_ok (entry : value) :
  format_song entry = Ok (formatted entry) /\ all_records (formatted entry).
Proof.
  unfold formatted. destruct entry as [| b | n | f | s | l | d];
    cbn [format_song]; try (split; [reflexivity|constructor]).
  - destruct (len (split (u " - ") s) >=? 2) eqn:G.
    + destruct (split (u " - ") s) as [|p0 [|p1 rest]] eqn:E;
        try (vm_compute in G; discriminate).
      destruct (index_first_two p0 p1 rest) as [-> ->]. cbn [bind].
      split; [reflexivity|]. repeat constructor.
    + split; [reflexivity|]. repeat constructor.
  - destruct (has_key (u "title") d && has_key (u "artist") d) eqn:G;
      (split; [reflexivity|]); [|constructor].
    constructor; [exact G|constructor].
Qed.

Lemma format_songs_ok (entries : list value) :
  forall acc,
    format_songs entries acc = Ok (acc ++ flat_map formatted entries).
Proof.
  induction entries as [|e rest IH]; intros acc; cbn [format_songs flat_map].
  - now rewrite app_nil_r.
  - destruct (format_song_ok e) as [-> _]. cbn [bind].
    now rewrite IH, <- app_assoc.
Qed.

Lemma flat_map_formatted_records (entries : list value) :
  all_records (flat_map formatted entries).
Proof.
  induction entries as [|e rest IH]; cbn [flat_map]; [constructor|].
  apply Forall_app. split; [apply format_song_ok|exact IH].
Qed.

Section Adapter.

Variable lower : str -> str.
Variable json_loads : str -> res value.
Variable GEMINI_API_KEY : option str.
Variable generate_content : str -> list Byte.byte -> Z -> res str.

(** Whatever the inner [try] returns carries song records only. *)
Lemma try_json_records (response_text : str) (max_outputs : Z) (r : response) :
  try_json json_loads response_text max_outputs = Ok (Some r) ->
  all_records (songs r).
Proof.
  unfold try_json.
  destruct (negb (find (u "{") response_text =? -1)
            && negb (rfind (u "}") response_text + 1 =? 0)); [|discriminate].
  destruct (json_loads _) as [result|e]; [|discriminate]. cbn [bind].
  destruct (py_in (u "captions") result) as [hc|e]; [|discriminate].
  cbn [bind].
  destruct (if hc then py_in (u "songs") result else Ok false) as [hs|e];
    [|discriminate].
  cbn [bind]. destruct (hc && hs); [|discriminate].
  destruct (getitem result (u "captions")) as [c0|e]; [|discriminate].
  cbn [bind]. destruct (value_upto max_outputs c0) as [caps|e]; [|discriminate].
  cbn [bind]. destruct (getitem result (u "songs")) as [s0|e]; [|discriminate].
  cbn [bind]. destruct (value_upto max_outputs s0) as [sngs|e]; [|discriminate].
  cbn [bind]. destruct (iter sngs) as [entries|e]; [|discriminate].
  cbn [bind]. rewrite format_songs_ok. cbn [bind app].
  intros H. injection H as <-. cbn [songs].
  apply flat_map_formatted_records.
Qed.

Lemma get_mock_response_records (prompt : str) (n : Z) :
  exists r, get_mock_response lower prompt n = Ok r /\ all_records (songs r).
Proof.
  rewrite get_mock_response_ok. eexists. split; [reflexivity|]. cbn [songs].
  pose proof (select_songs_records lower prompt) as R.
  pose proof (map_pick_in (select_songs lower prompt) (seed_value prompt)
                (range n)) as M.
  unfold all_records in *. rewrite Forall_forall in *.
  intros s Hs. apply R, M; [rewrite len_select_songs; lia|assumption].
Qed.

Lemma handle_response_cases (raw : str) (max_outputs : Z) :
  (exists r, handle_response lower json_loads raw max_outputs = Ok r
             /\ all_records (songs r))
  \/ (exists e, handle_response lower json_loads raw max_outputs = Raise e
                /\ e <> JSONDecodeError
                /\ try_json json_loads (strip raw) max_outputs = Raise e).
Proof.
  unfold handle_response.
  destruct (try_json json_loads (strip raw) max_outputs) as [[r|]|e] eqn:E.
  - left. exists r. split; [reflexivity|]. eapply try_json_records; eassumption.
  - left.
    destruct (parse_gemini_response_ok lower (strip raw) max_outputs)
      as (cs & ss & -> & R & _).
    eexists. split; [reflexivity|assumption].
  - destruct e;
      try (right; eexists; split; [reflexivity|split; [discriminate|reflexivity]]).
    left.
    destruct (parse_gemini_response_ok lower (strip raw) max_outputs)
      as (cs & ss & -> & R & _).
    eexists. split; [reflexivity|assumption].
Qed.

Lemma call_gemini_ok (prompt : str) (image_bytes : list Byte.byte) (n : Z) :
  exists r,
    call_gemini lower json_loads GEMINI_API_KEY generate_content
      prompt image_bytes n = Ok r
    /\ all_records (songs r).
Proof.
  unfold call_gemini.
  destruct (no_key GEMINI_API_KEY); [apply get_mock_response_records|].
  destruct (generate_content prompt image_bytes n) as [raw|e]; cbn [bind].
  - destruct (handle_response_cases raw n) as [(r & -> & R)|(e & -> & _)].
    + now exists r.
    + apply get_mock_response_records.
  - apply get_mock_response_records.
Qed.

End Adapter.

Lemma index_map_range {A : Type} (f : Z -> A) (n i : Z) :
  0 <= i < n -> index (map f (range n)) i = Ok (f i).
Proof.
  intros H. rewrite (index_ok (f 0)).
  - now rewrite map_nth, range_nth.
  - rewrite len_map, len_range. lia.
Qed.

(** ASCII lower-casing acts character by character. *)
Lemma ascii_lower_in_place (a w b : str) :
  Forall (fun c => (c < 128)%N) w ->
  exists a' b', ascii_lower (a ++ w ++ b) = a' ++ ascii_lower w ++ b'.
Proof.
  intros _. exists (ascii_lower a), (ascii_lower b).
  unfold ascii_lower. now rewrite !map_app.
Qed.

(** ** The statements of the specification *)

(** The sum line 290 takes is the sum of the code points of the prompt. *)
Lemma sum_ord_total (prompt : str) :
  sum_ord prompt = fold_right Z.add 0 (map Z.of_N prompt).
Proof.
  unfold sum_ord.
  assert (G : forall acc,
            fold_left (fun a c => a + ord c) prompt acc
            = acc + fold_right Z.add 0 (map Z.of_N prompt)).
  { induction prompt as [|c t IH]; intros acc; cbn [fold_left map fold_right].
    - lia.
    - rewrite IH. unfold ord. lia. }
  now rewrite G.
Qed.

(** C3.  For every prompt and count the mock generator computes the seed as
    the sum of the character codes of the prompt modulo 7, the length of the
    caption pool (0 for the empty prompt), and returns [count] captions and
    [count] songs whose entry [i] is [base_captions[(seed + i) mod 7]] and
    [pool[(seed + i) mod len(pool)]] for the selected song pool; for the
    empty prompt and count 3 these are the first three captions and the
    first three hollywood songs.  The sum of the character codes is written
    out with the standard library: [total] adds up the code points of the
    prompt. *)
Theorem mock_indexing (lower : str -> str) (prompt : str) (count : Z) :
  lower [] = [] ->
  let total := fold_right Z.add 0 (map Z.of_N prompt) in
  let seed := match prompt with [] => 0 | _ :: _ => total mod 7 end in
  let pool := select_songs lower prompt in
  sum_ord prompt = total /\
  seed_of prompt = Ok seed /\
  (exists caps sngs,
      get_mock_response lower prompt count
      = Ok {| captions := VList caps; songs := sngs |}
      /\ len caps = Z.max 0 count /\ len sngs = Z.max 0 count
      /\ forall i, 0 <= i < count ->
           exists c s,
             index caps i = Ok c
             /\ index base_captions ((seed + i) mod 7) = Ok c
             /\ index sngs i = Ok s
             /\ index pool ((seed + i) mod len pool) = Ok s) /\
  get_mock_response lower [] 3
  = Ok {| captions := VList (upto 3 base_captions);
          songs := upto 3 hollywood_songs |}.
Proof.
  intros Hnil total seed pool.
  assert (Hseed : seed = seed_value prompt).
  { unfold seed, total, seed_value. destruct prompt; [reflexivity|].
    now rewrite sum_ord_total. }
  split; [apply sum_ord_total|].
  split; [rewrite Hseed; apply seed_of_ok|]. split.
  - rewrite get_mock_response_ok, <- Hseed. fold pool.
    eexists. eexists. split; [reflexivity|].
    rewrite !len_map, len_range. split; [reflexivity|]. split; [reflexivity|].
    intros i Hi. exists (pick base_captions seed i), (pick pool seed i).
    rewrite !index_map_range by assumption.
    split; [reflexivity|]. split.
    + apply (index_pick base_captions). rewrite len_base_captions. lia.
    + split; [reflexivity|]. apply index_pick.
      unfold pool. rewrite len_select_songs. lia.
  - rewrite get_mock_response_ok. unfold select_songs. rewrite Hnil.
    reflexivity.
Qed.

Lemma mock_indexing_witness :
  fold_right Z.add 0 (map Z.of_N (u "kpop")) = 442
  /\ sum_ord (u "kpop") = 442
  /\ seed_of (u "kpop") = Ok 1
  /\ get_mock_response ascii_lower (u "kpop") 2
     = Ok {| captions :=
               VList [VStr (u "When the world felt like a soft melody");
                      VStr (u "Sunlit streets and quiet thoughts")];
             songs := [song (u "Butter") (u "BTS");
                       song (u "How You Like That") (u "BLACKPINK")] |}
  /\ get_mock_response ascii_lower [] 3
     = Ok {| captions :=
               VList [VStr (u "Stolen moments under golden skies");
                      VStr (u "When the world felt like a soft melody");
                      VStr (u "Sunlit streets and quiet thoughts")];
             songs := [song (u "Golden Hour") (u "Joji");
                       song (u "Sunflower") (u "Post Malone");
                       song (u "Levitating") (u "Dua Lipa")] |}.
Proof.
  destruct (mock_indexing ascii_lower (u "kpop") 2 eq_refl)
    as (Hsum & Hseed & (caps & sngs & E & Lc & Ls & Hi) & Hempty).
  split; [reflexivity|]. split; [exact Hsum|]. split; [exact Hseed|].
  split; [|exact Hempty].
  rewrite E.
  destruct (Hi 0 ltac:(lia)) as (c0 & s0 & Hc0 & Bc0 & Hs0 & Bs0).
  destruct (Hi 1 ltac:(lia)) as (c1 & s1 & Hc1 & Bc1 & Hs1 & Bs1).
  destruct caps as [|x0 [|x1 [|x2 caps]]];
    try (exfalso; unfold len in Lc; cbn [List.length] in Lc; lia).
  destruct sngs as [|y0 [|y1 [|y2 sngs]]];
    try (exfalso; unfold len in Ls; cbn [List.length] in Ls; lia).
  vm_compute in Hc0, Hc1, Hs0, Hs1, Bc0, Bc1, Bs0, Bs1.
  injection Hc0 as ->. injection Hc1 as ->.
  injection Hs0 as ->. injection Hs1 as ->.
  injection Bc0 as <-. injection Bc1 as <-.
  injection Bs0 as <-. injection Bs1 as <-.
  reflexivity.
Defined.

(** C5.  The mock generator is deterministic: two calls with the same prompt
    and the same count both return, and return the same captions and the
    same songs in the same order. *)
Theorem mock_deterministic (lower : str -> str) (prompt1 prompt2 : str)
    (count1 count2 : Z) :
  prompt1 = prompt2 -> count1 = count2 ->
  exists r,
    get_mock_response lower prompt1 count1 = Ok r
    /\ get_mock_response lower prompt2 count2 = Ok r.
Proof.
  intros <- <-. rewrite get_mock_response_ok. eexists. split; reflexivity.
Qed.

Lemma mock_deterministic_witness :
  exists r,
    get_mock_response ascii_lower (u "Sunset at the beach") 4 = Ok r
    /\ get_mock_response ascii_lower (u "Sunset at the beach") 4 = Ok r.
Proof.
  exact (mock_deterministic ascii_lower (u "Sunset at the beach")
           (u "Sunset at the beach") 4 4 eq_refl eq_refl).
Defined.

(** C6.  Region selection in the mock generator: the lower-cased prompt is
    searched for "bollywood", then "tollywood", then "kpop" or "k-pop", then
    "hollywood".  The generator returns [count] songs.  With "bollywood" in
    the prompt the bollywood pool is selected and every returned song is from
    it; otherwise with "tollywood" in it the tollywood pool is selected and
    every song is from it; otherwise with "kpop" or "k-pop" in it the kpop
    pool is selected and every song is from it; with none of the three (and
    for the empty prompt) the hollywood pool is selected and every song is
    from it.  The search is case-insensitive: a keyword written in the prompt
    in any mix of upper and lower case is found in the lower-cased prompt.
    The two hypotheses are the facts about [str.lower] this rests on: it maps
    the empty string to itself, and it lower-cases a run of ASCII characters
    in place. *)
Theorem mock_region_selection (lower : str -> str) (prompt : str) (count : Z) :
  lower [] = [] ->
  (forall a w b, Forall (fun c => (c < 128)%N) w ->
     exists a' b', lower (a ++ w ++ b) = a' ++ ascii_lower w ++ b') ->
  let p := lower prompt in
  exists r,
    get_mock_response lower prompt count = Ok r
    /\ len (songs r) = Z.max 0 count
    /\ (contains (u "bollywood") p = true ->
        select_songs lower prompt = bollywood_songs
        /\ drawn_from bollywood_songs (songs r))
    /\ (contains (u "bollywood") p = false ->
        contains (u "tollywood") p = true ->
        select_songs lower prompt = tollywood_songs
        /\ drawn_from tollywood_songs (songs r))
    /\ (contains (u "bollywood") p = false ->
        contains (u "tollywood") p = false ->
        contains (u "kpop") p || contains (u "k-pop") p = true ->
        select_songs lower prompt = kpop_songs
        /\ drawn_from kpop_songs (songs r))
    /\ (contains (u "bollywood") p = false ->
        contains (u "tollywood") p = false ->
        contains (u "kpop") p = false ->
        contains (u "k-pop") p = false ->
        select_songs lower prompt = hollywood_songs
        /\ drawn_from hollywood_songs (songs r))
    /\ (prompt = [] ->
        select_songs lower prompt = hollywood_songs
        /\ drawn_from hollywood_songs (songs r))
    /\ (forall keyword a w b,
          prompt = a ++ w ++ b ->
          Forall (fun c => (c < 128)%N) w ->
          ascii_lower w = keyword ->
          contains keyword p = true).
Proof.
  intros Hnil Hcase p. rewrite get_mock_response_ok. eexists.
  split; [reflexivity|]. cbn [songs].
  split; [now rewrite len_map, len_range|].
  assert (D : drawn_from (select_songs lower prompt)
                (map (pick (select_songs lower prompt) (seed_value prompt))
                     (range count))).
  { apply map_pick_in. rewrite len_select_songs. lia. }
  assert (S : forall pool, select_songs lower prompt = pool ->
                select_songs lower prompt = pool
                /\ drawn_from pool
                     (map (pick (select_songs lower prompt) (seed_value prompt))
                          (range count))).
  { intros pool E. split; [exact E|]. now rewrite <- E. }
  split; [|split; [|split; [|split; [|split]]]].
  - intros Hb. apply S. unfold select_songs. fold p. now rewrite Hb.
  - intros Hb Ht. apply S. unfold select_songs. fold p. now rewrite Hb, Ht.
  - intros Hb Ht Hk. apply S. unfold select_songs. fold p.
    now rewrite Hb, Ht, Hk.
  - intros Hb Ht Hk Hk'. apply S. unfold select_songs. fold p.
    rewrite Hb, Ht, Hk, Hk'. cbn [orb].
    now destruct (contains (u "hollywood") p).
  - intros E. apply S. rewrite E. unfold select_songs. now rewrite Hnil.
  - intros keyword a w b -> Hw <-. unfold p.
    destruct (Hcase a w b Hw) as (a' & b' & ->). apply contains_app.
Qed.

Lemma mock_region_selection_witness :
  exists r,
    get_mock_response ascii_lower
      (u "TOLLYWOOD hits, " ++ u "BollyWood" ++ u " vibes") 3
    = Ok r
    /\ len (songs r) = 3
    /\ select_songs ascii_lower
         (u "TOLLYWOOD hits, " ++ u "BollyWood" ++ u " vibes")
       = bollywood_songs
    /\ drawn_from bollywood_songs (songs r).
Proof.
  destruct (mock_region_selection ascii_lower
              (u "TOLLYWOOD hits, " ++ u "BollyWood" ++ u " vibes") 3
              eq_refl ascii_lower_in_place)
    as (r & E & L & Hb & _ & _ & _ & _ & Hfound).
  exists r. split; [exact E|]. split; [exact L|]. apply Hb.
  apply (Hfound (u "bollywood") (u "TOLLYWOOD hits, ") (u "BollyWood")
           (u " vibes")); [reflexivity| |reflexivity].
  repeat (constructor; [reflexivity|]). constructor.
Defined.

(** C7.  Count clamping at the endpoint: whatever the [num] field holds, the
    count lies between 1 and 6; a field that parses to [k] gives [k] clamped
    into that range, so "0" gives 1 and "10" gives 6; a missing field gives 3;
    a field that does not parse gives 3. *)
Theorem count_clamping (py_int : str -> res Z) :
  py_int (u "0") = Ok 0 -> py_int (u "10") = Ok 10 -> py_int (u "3") = Ok 3 ->
  (forall field, 1 <= read_num py_int field <= 6)
  /\ (forall field k, py_int (form_get field (u "3")) = Ok k ->
        read_num py_int field = Z.max 1 (Z.min 6 k))
  /\ read_num py_int (Some (u "0")) = 1
  /\ read_num py_int (Some (u "10")) = 6
  /\ read_num py_int None = 3
  /\ (forall field e, py_int (form_get field (u "3")) = Raise e ->
        read_num py_int field = 3).
Proof.
  intros H0 H10 H3. unfold read_num.
  split; [intros field; destruct (py_int (form_get field (u "3"))); lia|].
  split; [intros field k ->; reflexivity|].
  cbn [form_get]. rewrite H0, H10, H3.
  split; [reflexivity|]. split; [reflexivity|]. split; [reflexivity|].
  intros field e ->. reflexivity.
Qed.

Lemma count_clamping_witness :
  read_num decimal_int (Some (u "0")) = 1
  /\ read_num decimal_int (Some (u "10")) = 6
  /\ read_num decimal_int None = 3
  /\ read_num decimal_int (Some (u "three")) = 3.
Proof.
  destruct (count_clamping decimal_int eq_refl eq_refl eq_refl)
    as (_ & _ & H0 & H10 & Hnone & Hfail).
  split; [exact H0|]. split; [exact H10|]. split; [exact Hnone|].
  apply (Hfail (Some (u "three")) ValueError). reflexivity.
Defined.

(** C9.  The caption pool and the four song pools all have seven entries, so
    for every prompt and count the caption and the song at position [i] are
    taken at one and the same index [(seed + i) mod 7] of their pools. *)
Theorem mock_pools_synchronised (lower : str -> str) (prompt : str) (count : Z) :
  len base_captions = 7
  /\ len bollywood_songs = 7 /\ len hollywood_songs = 7
  /\ len tollywood_songs = 7 /\ len kpop_songs = 7
  /\ len (select_songs lower prompt) = len base_captions
  /\ exists seed caps sngs,
       seed_of prompt = Ok seed
       /\ get_mock_response lower prompt count
          = Ok {| captions := VList caps; songs := sngs |}
       /\ forall i, 0 <= i < count ->
            exists k c s,
              k = (seed + i) mod 7
              /\ index caps i = Ok c /\ index base_captions k = Ok c
              /\ index sngs i = Ok s
              /\ index (select_songs lower prompt) k = Ok s.
Proof.
  do 5 (split; [reflexivity|]).
  split; [now rewrite len_select_songs|].
  exists (seed_value prompt). eexists. eexists.
  split; [apply seed_of_ok|]. split; [apply get_mock_response_ok|].
  intros i Hi.
  exists ((seed_value prompt + i) mod 7),
         (pick base_captions (seed_value prompt) i),
         (pick (select_songs lower prompt) (seed_value prompt) i).
  rewrite !index_map_range by assumption.
  split; [reflexivity|]. split; [reflexivity|]. split.
  - apply (index_pick base_captions). rewrite len_base_captions. lia.
  - split; [reflexivity|].
    rewrite <- (len_select_songs lower prompt) at 1.
    apply index_pick. rewrite len_select_songs. lia.
Qed.

Lemma mock_pools_synchronised_witness :
  exists k c s,
    k = 2
    /\ index base_captions k = Ok c /\ index kpop_songs k = Ok s
    /\ c = VStr (u "Sunlit streets and quiet thoughts")
    /\ s = song (u "How You Like That") (u "BLACKPINK").
Proof.
  destruct (mock_pools_synchronised ascii_lower (u "kpop") 2)
    as (_ & _ & _ & _ & _ & _ & seed & caps & sngs & Hseed & E & H).
  injection Hseed as <-.
  destruct (H 1 ltac:(lia)) as (k & c & s & Hk & _ & Hc & _ & Hs).
  exists k, c, s. split; [exact Hk|]. split; [exact Hc|]. split; [exact Hs|].
  subst k. vm_compute in Hc, Hs.
  injection Hc as <-. injection Hs as <-. split; reflexivity.
Defined.

(** C10.  On every return path of the adapter (mock, JSON success, line
    recovery) each element of the returned songs list is a dictionary that
    has a [title] key and an [artist] key. *)
Theorem adapter_songs_are_records (lower : str -> str)
    (json_loads : str -> res value) (GEMINI_API_KEY : option str)
    (generate_content : str -> list Byte.byte -> Z -> res str)
    (prompt : str) (image_bytes : list Byte.byte) (count : Z) :
  let titled (v : value) :=
    exists d t a, v = VDict d /\ lookup (u "title") d = Some t
                  /\ lookup (u "artist") d = Some a in
  (exists r,
      call_gemini lower json_loads GEMINI_API_KEY generate_content
        prompt image_bytes count = Ok r
      /\ Forall titled (songs r))
  /\ (exists r, get_mock_response lower prompt count = Ok r
                /\ Forall titled (songs r))
  /\ (forall text r, try_json json_loads text count = Ok (Some r) ->
                     Forall titled (songs r))
  /\ (forall text, exists r,
        parse_gemini_response lower text count = Ok r
        /\ Forall titled (songs r)).
Proof.
  intros titled.
  assert (T : forall l, all_records l -> Forall titled l).
  { intros l. unfold all_records. apply Forall_impl. intros v Hv.
    destruct v as [| | | | | |d]; try discriminate Hv.
    unfold song_record, has_key in Hv.
    destruct (lookup (u "title") d) as [t|] eqn:Et; [|discriminate].
    destruct (lookup (u "artist") d) as [a|] eqn:Ea; [|discriminate].
    now exists d, t, a. }
  split; [|split; [|split]].
  - destruct (call_gemini_ok lower json_loads GEMINI_API_KEY generate_content
                prompt image_bytes count) as (r & E & R).
    exists r. auto.
  - destruct (get_mock_response_records lower prompt count) as (r & E & R).
    exists r. auto.
  - intros text r E. apply T. eapply try_json_records; eassumption.
  - intros text.
    destruct (parse_gemini_response_ok lower text count) as (cs & ss & E & R & _).
    eexists. split; [exact E|]. now apply T.
Qed.

Lemma adapter_songs_are_records_witness :
  exists r d t a,
    call_gemini ascii_lower (loads_table [(dashed_json, dashed_value)])
      (Some (u "key")) (answers dashed_json) (u "hello") png 1 = Ok r
    /\ songs r = [VDict d]
    /\ lookup (u "title") d = Some t /\ lookup (u "artist") d = Some a.
Proof.
  destruct (adapter_songs_are_records ascii_lower
              (loads_table [(dashed_json, dashed_value)]) (Some (u "key"))
              (answers dashed_json) (u "hello") png 1)
    as ((r & E & F) & _).
  vm_compute in E. injection E as <-. cbn [songs] in F.
  inversion F as [|v l (d & t & a & Hv & Ht & Ha) _]; subst.
  eexists. exists d, t, a.
  split; [vm_compute; reflexivity|]. cbn [songs]. rewrite Hv.
  split; [reflexivity|]. split; assumption.
Defined.

(** C1.  The claim: whatever the upstream outcome, the captions list and the
    songs list of the response have exactly [count] entries.  The JSON path
    only truncates: a request with [num] 3 whose upstream answer is a valid
    object with one caption and no song is answered with one caption and no
    song. *)
Theorem json_path_keeps_short_lists :
  read_num decimal_int (form_num (photo_request (Some (u "3")))) = 3
  /\ generate ascii_lower decimal_int (loads_table [(short_json, short_value)])
       (Some (u "key")) (answers short_json) (fun name => name) splitext
       (photo_request (Some (u "3")))
     = Ok (200, ResultBody (VList [VStr (u "Only one")]) []).
Proof. split; vm_compute; reflexivity. Qed.

(** C2.  The claim: in songs mode a cleaned line with [" - "] in it is split
    there, so that the line "Title - Artist" yields title "Title" and artist
    "Artist".  The cleanup removes every hyphen, so no cleaned line contains
    [" - "], and the line "Title - Artist" becomes the title "Title  Artist"
    of an unknown artist. *)
Theorem dash_line_is_not_split :
  (forall line, contains (u " - ") (cleanup line) = false)
  /\ song_of_line (cleanup (u "Title - Artist"))
     = Ok [song (u "Title  Artist") (u "Unknown Artist")]
  /\ call_gemini ascii_lower (loads_table []) (Some (u "key"))
       (answers dash_lines) (u "hello") png 1
     = Ok {| captions := VList [VStr (u "Stolen moments under golden skies")];
             songs := [song (u "Title  Artist") (u "Unknown Artist")] |}.
Proof.
  split; [exact cleanup_no_dash_separator|].
  split; vm_compute; reflexivity.
Qed.

(** C4, as stated, fails: a decode error raised while parsing the answer is
    caught, but the result is that of line-based recovery, not that of the
    mock generator. *)
Lemma decode_error_is_not_sent_to_mock :
  try_json (loads_table []) (strip broken_json_lines) 1 = Raise JSONDecodeError
  /\ call_gemini ascii_lower (loads_table []) (Some (u "key"))
       (answers broken_json_lines) (u "hello") png 1
     = Ok {| captions := VList [VStr (u "Stolen moments under golden skies")];
             songs := [song (u "Abcd") (u "Efgh")] |}
  /\ call_gemini ascii_lower (loads_table []) (Some (u "key"))
       (answers broken_json_lines) (u "hello") png 1
     <> get_mock_response ascii_lower (u "hello") 1.
Proof.
  split; [reflexivity|]. split; [vm_compute; reflexivity|].
  vm_compute. discriminate.
Qed.

(** C4, amended.  The adapter never raises: for every prompt, image and
    count [call_gemini] returns a result.  Without a credential it is the
    result of the mock generator; an exception of the external call, and an
    exception of the response parsing other than a JSON decode error, is
    caught and answered with the result of the mock generator; a JSON decode
    error is caught and answered with the result of line-based recovery. *)
Theorem adapter_never_raises (lower : str -> str)
    (json_loads : str -> res value) (GEMINI_API_KEY : option str)
    (generate_content : str -> list Byte.byte -> Z -> res str)
    (prompt : str) (image_bytes : list Byte.byte) (count : Z) :
  let adapter :=
    call_gemini lower json_loads GEMINI_API_KEY generate_content
      prompt image_bytes count in
  let mock := get_mock_response lower prompt count in
  (exists r, adapter = Ok r)
  /\ (exists r, mock = Ok r)
  /\ (no_key GEMINI_API_KEY = true -> adapter = mock)
  /\ (no_key GEMINI_API_KEY = false ->
      forall e, generate_content prompt image_bytes count = Raise e ->
                adapter = mock)
  /\ (no_key GEMINI_API_KEY = false ->
      forall raw e,
        generate_content prompt image_bytes count = Ok raw ->
        try_json json_loads (strip raw) count = Raise e ->
        e <> JSONDecodeError ->
        adapter = mock)
  /\ (no_key GEMINI_API_KEY = false ->
      forall raw,
        generate_content prompt image_bytes count = Ok raw ->
        try_json json_loads (strip raw) count = Raise JSONDecodeError ->
        adapter = parse_gemini_response lower (strip raw) count
        /\ exists r, adapter = Ok r).
Proof.
  intros adapter mock.
  assert (Hret : exists r, adapter = Ok r).
  { destruct (call_gemini_ok lower json_loads GEMINI_API_KEY generate_content
                prompt image_bytes count) as (r & E & _).
    now exists r. }
  split; [exact Hret|]. split.
  { unfold mock. rewrite get_mock_response_ok. now eexists. }
  unfold adapter, call_gemini. split; [now intros ->|].
  split; [intros -> e ->; reflexivity|]. split.
  - intros -> raw e -> E Hne. cbn [bind]. unfold handle_response. rewrite E.
    destruct e; try reflexivity. now contradiction Hne.
  - intros Hk raw Hg E. split; [|exact Hret].
    rewrite Hk, Hg. cbn [bind]. unfold handle_response. rewrite E.
    destruct (parse_gemini_response_ok lower (strip raw) count)
      as (cs & ss & -> & _). reflexivity.
Qed.

Lemma adapter_never_raises_witness :
  call_gemini ascii_lower (loads_table []) (Some (u "key"))
    (fails (OtherError (u "quota exceeded"))) (u "hello") png 2
  = get_mock_response ascii_lower (u "hello") 2.
Proof.
  destruct (adapter_never_raises ascii_lower (loads_table []) (Some (u "key"))
              (fails (OtherError (u "quota exceeded"))) (u "hello") png 2)
    as (_ & _ & _ & H & _).
  exact (H eq_refl (OtherError (u "quota exceeded")) eq_refl).
Defined.





(** ** Further properties of the program *)

(** *** The route *)

Lemma str_eqb_true_iff (a b : str) : str_eqb a b = true <-> a = b.
Proof.
  revert b. induction a as [|x a IH]; intros [|y b]; simpl;
    try (split; [discriminate|congruence]); [tauto|].
  rewrite andb_true_iff, N.eqb_eq, IH. split.
  - intros [-> ->]. reflexivity.
  - intros H. injection H. auto.
Qed.

Lemma existsb_str_eqb (x : str) (l : list str) :
  existsb (str_eqb x) l = true <-> In x l.
Proof.
  rewrite existsb_exists. split.
  - intros (y & Hy & E). apply str_eqb_true_iff in E. now subst.
  - intros H. exists x. split; [assumption|now apply str_eqb_true_iff].
Qed.

Lemma len_upto_bound {A : Type} (k : Z) (l : list A) :
  0 <= k -> len (upto k l) <= k.
Proof.
  intros Hk. unfold upto, slice, clip.
  replace (0 <? 0) with false by reflexivity.
  destruct (k <? 0) eqn:E; [apply Z.ltb_lt in E; lia|].
  pose proof (len_nonneg l). unfold len at 1.
  rewrite length_firstn. lia.
Qed.

Lemma upto_all {A : Type} (k : Z) (l : list A) :
  len l <= k -> upto k l = l.
Proof.
  intros Hk. pose proof (len_nonneg l). unfold upto, slice, clip.
  replace (0 <? 0) with false by reflexivity.
  destruct (k <? 0) eqn:E; [apply Z.ltb_lt in E; lia|].
  rewrite Z.min_r by lia. rewrite Z.min_l by lia.
  cbn [Z.to_nat skipn]. apply firstn_all2. unfold len in *. lia.
Qed.

Lemma value_upto_sliceable (n : Z) (v : value) :
  sliceable v = true ->
  exists w, value_upto n v = Ok w /\ sliceable w = true
            /\ (0 <= n -> size w <= n)
            /\ (size v <= n -> w = v).
Proof.
  destruct v; try discriminate; intros _; cbn [value_upto].
  - eexists. split; [reflexivity|]. split; [reflexivity|]. split.
    + apply len_upto_bound.
    + intros H. cbn [size] in H. now rewrite upto_all.
  - eexists. split; [reflexivity|]. split; [reflexivity|]. split.
    + apply len_upto_bound.
    + intros H. cbn [size] in H. now rewrite upto_all.
Qed.

Section Route.

Variable lower : str -> str.
Variable py_int : str -> res Z.
Variable json_loads : str -> res value.
Variable GEMINI_API_KEY : option str.
Variable generate_content : str -> list Byte.byte -> Z -> res str.
Variable secure_filename : str -> str.
Variable splitext : str -> str * str.

Lemma read_num_range (field : option str) : 1 <= read_num py_int field <= 6.
Proof. unfold read_num. destruct (py_int _); lia. Qed.

Lemma try_json_sliceable (text : str) (n : Z) (r : response) :
  try_json json_loads text n = Ok (Some r) -> sliceable (captions r) = true.
Proof.
  unfold try_json.
  destruct (negb (find (u "{") text =? -1)
            && negb (rfind (u "}") text + 1 =? 0)); [|discriminate].
  destruct (json_loads _) as [result|e]; [|discriminate]. cbn [bind].
  destruct (py_in (u "captions") result) as [hc|e]; [|discriminate].
  cbn [bind].
  destruct (if hc then py_in (u "songs") result else Ok false) as [hs|e];
    [|discriminate].
  cbn [bind]. destruct (hc && hs); [|discriminate].
  destruct (getitem result (u "captions")) as [c0|e]; [|discriminate].
  cbn [bind]. destruct (value_upto n c0) as [caps|e] eqn:Ec; [|discriminate].
  cbn [bind]. destruct (getitem result (u "songs")) as [s0|e]; [|discriminate].
  cbn [bind]. destruct (value_upto n s0) as [sngs|e]; [|discriminate].
  cbn [bind]. destruct (iter sngs) as [entries|e]; [|discriminate].
  cbn [bind]. rewrite format_songs_ok. cbn [bind].
  intros H. injection H as <-. cbn [captions].
  destruct c0; try discriminate Ec; cbn [value_upto] in Ec;
    injection Ec as <-; reflexivity.
Qed.

(** The adapter returns a list or a string of captions and song records. *)
Lemma call_gemini_shape (prompt : str) (image_bytes : list Byte.byte) (n : Z) :
  exists r,
    call_gemini lower json_loads GEMINI_API_KEY generate_content
      prompt image_bytes n = Ok r
    /\ sliceable (captions r) = true /\ all_records (songs r).
Proof.
  assert (M : exists r, get_mock_response lower prompt n = Ok r
                        /\ sliceable (captions r) = true
                        /\ all_records (songs r)).
  { destruct (get_mock_response_records lower prompt n) as (r & E & R).
    exists r. split; [exact E|]. split; [|exact R].
    rewrite get_mock_response_ok in E. now injection E as <-. }
  assert (P : forall text, exists r,
                parse_gemini_response lower text n = Ok r
                /\ sliceable (captions r) = true /\ all_records (songs r)).
  { intros text.
    destruct (parse_gemini_response_ok lower text n) as (cs & ss & E & R & _).
    eexists. split; [exact E|]. split; [reflexivity|exact R]. }
  unfold call_gemini. destruct (no_key GEMINI_API_KEY); [exact M|].
  destruct (generate_content prompt image_bytes n) as [raw|e]; cbn [bind];
    [|exact M].
  unfold handle_response.
  destruct (try_json json_loads (strip raw) n) as [[r|]|e] eqn:E.
  - exists r. split; [reflexivity|]. split.
    + eapply try_json_sliceable; eassumption.
    + eapply try_json_records; eassumption.
  - destruct (P (strip raw)) as (r & -> & H). now exists r.
  - destruct e; try exact M.
    destruct (P (strip raw)) as (r & -> & H). now exists r.
Qed.

(** Once the route has read the upload (what [request.files.get] returned is
    [image req]), its answer is settled by the upload alone.  No file, or a
    file without a name, is answered 400 "No image uploaded"; a named file
    whose lower-cased extension is not in [UPLOAD_EXTENSIONS] is answered 400
    "Unsupported file type"; every other upload is answered 200 with
    captions and songs, whatever the credential, the remote model and the
    decoder do: [call_gemini] cannot raise, so the handler of lines 936 to
    938 and its 500 are never reached. *)
Theorem route_status_of_upload (req : request) :
  let answer :=
    generate lower py_int json_loads GEMINI_API_KEY generate_content
      secure_filename splitext req in
  let ext name := lower (snd (splitext (secure_filename name))) in
  (image req = None -> answer = Ok (400, ErrorBody (u "No image uploaded")))
  /\ (forall img_bytes, image req = Some ([], img_bytes) ->
       answer = Ok (400, ErrorBody (u "No image uploaded")))
  /\ (forall name img_bytes,
       image req = Some (name, img_bytes) -> name <> [] ->
       ~ In (ext name) UPLOAD_EXTENSIONS ->
       answer = Ok (400, ErrorBody (u "Unsupported file type")))
  /\ (forall name img_bytes,
       image req = Some (name, img_bytes) -> name <> [] ->
       In (ext name) UPLOAD_EXTENSIONS ->
       exists caps sngs, answer = Ok (200, ResultBody caps sngs)).
Proof.
  intros answer ext. unfold answer, generate.
  split; [now intros ->|]. split; [now intros b ->|]. split.
  - intros name b -> Hname Hext. destruct name as [|c name]; [contradiction|].
    destruct (existsb (str_eqb (lower (snd (splitext (secure_filename (c :: name))))))
                UPLOAD_EXTENSIONS) eqn:E; [|reflexivity].
    apply existsb_str_eqb in E. contradiction.
  - intros name b -> Hname Hext. destruct name as [|c name]; [contradiction|].
    apply existsb_str_eqb in Hext. unfold ext in Hext. rewrite Hext.
    cbn [negb].
    set (num := read_num py_int (form_num req)).
    destruct (call_gemini_shape
                (build_prompt num (form_get (form_length req) (u "medium"))
                   (form_get (form_tone req) (u "aesthetic"))
                   (form_get (form_region req) (u "any"))
                   (form_get (form_mood req) (u "chill")))
                b num) as (r & -> & Hs & _).
    destruct (value_upto_sliceable num (captions r) Hs) as (w & -> & _).
    cbn [bind]. eexists. eexists. reflexivity.
Qed.

(** A 200 answer is bounded by the clamped count: the captions are a list or
    a string of at most [num] items, the songs are at most [num] records, and
    [num] is at most 6. *)
Theorem route_answer_bounded (req : request) (caps : value) (sngs : list value) :
  generate lower py_int json_loads GEMINI_API_KEY generate_content
    secure_filename splitext req = Ok (200, ResultBody caps sngs) ->
  let num := read_num py_int (form_num req) in
  sliceable caps = true
  /\ size caps <= num /\ len sngs <= num /\ num <= 6
  /\ all_records sngs.
Proof.
  intros H num. pose proof (read_num_range (form_num req)) as Hnum.
  fold num in Hnum. unfold generate in H.
  destruct (image req) as [[[|c name] img_bytes]|]; try discriminate H.
  destruct (negb _); [discriminate H|]. fold num in H.
  match type of H with
  | context [call_gemini _ _ _ _ ?p ?b ?n] =>
      destruct (call_gemini_shape p b n) as (r & E & Hs & R)
  end.
  rewrite E in H.
  destruct (value_upto_sliceable num (captions r) Hs) as (w & Ew & Hw & Hb & _).
  rewrite Ew in H. cbn [bind] in H. injection H as <- <-.
  split; [exact Hw|]. split; [apply Hb; lia|].
  split; [apply len_upto_bound; lia|]. split; [lia|].
  now apply upto_records.
Qed.

(** The route on the mock path. *)
Lemma route_mock_path (req : request) (name : str)
    (img_bytes : list Byte.byte) :
  image req = Some (name, img_bytes) -> name <> [] ->
  In (lower (snd (splitext (secure_filename name)))) UPLOAD_EXTENSIONS ->
  let num := read_num py_int (form_num req) in
  (no_key GEMINI_API_KEY = true
   \/ exists e, generate_content (prompt_of py_int req) img_bytes num = Raise e) ->
  exists caps sngs,
    get_mock_response lower (prompt_of py_int req) num
    = Ok {| captions := VList caps; songs := sngs |}
    /\ generate lower py_int json_loads GEMINI_API_KEY generate_content
         secure_filename splitext req
       = Ok (200, ResultBody (VList caps) sngs)
    /\ len caps = num /\ len sngs = num.
Proof.
  intros Himg Hname Hext num Hmock.
  pose proof (read_num_range (form_num req)) as Hnum. fold num in Hnum.
  assert (Hcall : call_gemini lower json_loads GEMINI_API_KEY generate_content
                    (prompt_of py_int req) img_bytes num
                  = get_mock_response lower (prompt_of py_int req) num).
  { unfold call_gemini. destruct Hmock as [->|(e & He)]; [reflexivity|].
    rewrite He. now destruct (no_key GEMINI_API_KEY). }
  rewrite get_mock_response_ok in *.
  eexists. eexists. split; [reflexivity|].
  unfold generate. rewrite Himg.
  destruct name as [|c name]; [contradiction|].
  apply existsb_str_eqb in Hext. rewrite Hext. cbn [negb].
  fold num. unfold prompt_of in Hcall. fold num in Hcall. rewrite Hcall.
  cbn [captions songs value_upto bind].
  rewrite !upto_all by (rewrite len_map, len_range; lia).
  split; [reflexivity|]. rewrite !len_map, len_range. lia.
Qed.

(** Without a credential, and when the remote call raises, the route answers
    an accepted upload with the output of the mock generator for the prompt
    it built: exactly [num] captions and exactly [num] songs. *)
Theorem route_mock_answer (req : request) (name : str)
    (img_bytes : list Byte.byte) :
  image req = Some (name, img_bytes) -> name <> [] ->
  In (lower (snd (splitext (secure_filename name)))) UPLOAD_EXTENSIONS ->
  let num := read_num py_int (form_num req) in
  (no_key GEMINI_API_KEY = true
   \/ exists e, generate_content (prompt_of py_int req) img_bytes num = Raise e) ->
  exists caps sngs,
    get_mock_response lower (prompt_of py_int req) num
    = Ok {| captions := VList caps; songs := sngs |}
    /\ generate lower py_int json_loads GEMINI_API_KEY generate_content
         secure_filename splitext req
       = Ok (200, ResultBody (VList caps) sngs)
    /\ len caps = num /\ len sngs = num.
Proof.
  intros Himg Hname Hext num Hmock.
  exact (route_mock_path req name img_bytes Himg Hname Hext Hmock).
Qed.



End Route.

(** *** Line-based recovery, continued *)

Lemma lstrip_cases (s : str) :
  lstrip s = [] \/ exists c t, lstrip s = c :: t /\ isspace c = false.
Proof.
  induction s as [|c s IH]; [now left|]. cbn [lstrip].
  destruct (isspace c) eqn:E; [exact IH|]. right. now exists c, s.
Qed.

Lemma lstrip_snoc (l : str) (c : N) :
  isspace c = false -> lstrip (l ++ [c]) = lstrip l ++ [c].
Proof.
  intros Hc. induction l as [|d l IH]; cbn [app lstrip].
  - now rewrite Hc.
  - destruct (isspace d); [exact IH|reflexivity].
Qed.

Lemma strip_nonspace_head (c : N) (x : str) :
  isspace c = false -> exists y, strip (c :: x) = c :: y.
Proof.
  intros Hc. unfold strip. cbn [lstrip]. rewrite Hc. unfold rstrip.
  cbn [rev]. rewrite lstrip_snoc by assumption. rewrite rev_unit.
  now eexists.
Qed.

Lemma strip_cases (s : str) :
  strip s = [] \/ exists c y, strip s = c :: y /\ isspace c = false.
Proof.
  unfold strip. destruct (lstrip_cases s) as [->|(c & t & -> & Hc)].
  - now left.
  - right. destruct (strip_nonspace_head c t Hc) as (y & E).
    unfold strip in E. cbn [lstrip] in E. rewrite Hc in E.
    now exists c, y.
Qed.

Lemma split_from_head (sep s : str) (k : nat) (cur : str) :
  exists x tl, split_from sep s k cur = (rev cur ++ x) :: tl.
Proof.
  revert k cur. induction s as [|c s IH]; intros k cur; cbn [split_from].
  - exists [], []. now rewrite app_nil_r.
  - destruct k as [|k]; [|apply IH].
    destruct (startswith sep (c :: s)).
    + exists [], (split_from sep s (List.length sep - 1) []).
      now rewrite app_nil_r.
    + destruct (IH 0%nat (c :: cur)) as (x & tl & ->).
      exists (c :: x), tl. cbn [rev]. now rewrite <- app_assoc.
Qed.

(** Removing a one-character string leaves none of that character. *)
Lemma replace_char_removed (c : N) (s : str) (k : nat) :
  ~ In c (replace_from [c] [] s k).
Proof.
  revert k. induction s as [|d s IH]; intros k; cbn [replace_from];
    [simpl; tauto|].
  destruct k as [|k]; [|apply IH].
  destruct (startswith [c] (d :: s)) eqn:E.
  - rewrite app_nil_l. apply IH.
  - intros [H|H]; [|now apply (IH 0%nat)].
    subst d. cbn [startswith] in E. rewrite N.eqb_refl in E.
    destruct s; discriminate E.
Qed.

Lemma cleanup_no_asterisk (line : str) : ~ In 42%N (cleanup line).
Proof.
  unfold cleanup, replace. intros H.
  apply strip_incl, replace_from_incl, replace_from_incl in H.
  now apply (replace_char_removed 42%N) in H.
Qed.

(** What the songs branch makes of a cleaned line: at most one song, with a
    title that is not empty. *)
Lemma song_of_cleaned_line (line : str) :
  exists l, song_of_line (cleanup line) = Ok l
            /\ (List.length l <= 1)%nat /\ Forall proper_song l.
Proof.
  unfold song_of_line. rewrite cleanup_no_dash_separator.
  destruct (contains (u " by ") (cleanup line)) eqn:Hby.
  - destruct (split_parts (u " by ") (cleanup line)) as (p0 & p1 & rest & E);
      [discriminate|assumption|].
    rewrite E. destruct (index_first_two p0 p1 rest) as [-> ->]. cbn [bind].
    eexists. split; [reflexivity|]. split; [simpl; lia|].
    constructor; [|constructor]. exists (strip p0), (strip p1).
    split; [reflexivity|].
    assert (Hs : exists c y, cleanup line = c :: y /\ isspace c = false).
    { unfold cleanup in *.
      destruct (strip_cases (replace bullet []
                  (replace (u "-") [] (replace (u "*") [] line))))
        as [E0|H]; [|exact H].
      rewrite E0 in Hby. discriminate Hby. }
    destruct Hs as (c & y & Ec & Hc). rewrite Ec in E.
    unfold split in E. cbn [split_from] in E.
    assert (Hst : startswith (u " by ") (c :: y) = false).
    { change (startswith (u " by ") (c :: y))
        with ((32 =? c)%N && startswith (u "by ") y).
      destruct (32 =? c)%N eqn:E32; [|reflexivity].
      apply N.eqb_eq in E32. subst c. discriminate Hc. }
    rewrite Hst in E.
    destruct (split_from_head (u " by ") y 0 [c]) as (x & tl & Ex).
    rewrite Ex in E. injection E as <- _.
    cbn [rev app]. destruct (strip_nonspace_head c x Hc) as (z & ->).
    discriminate.
  - destruct (negb (str_eqb (cleanup line) []) && (len (cleanup line) >? 3))
      eqn:G.
    + eexists. split; [reflexivity|]. split; [simpl; lia|].
      constructor; [|constructor]. eexists. eexists. split; [reflexivity|].
      intros E0. rewrite E0 in G. discriminate G.
    + eexists. split; [reflexivity|]. split; [simpl; lia|constructor].
Qed.

Lemma mock_captions_clean : Forall clean_caption base_captions.
Proof.
  repeat (constructor;
          [eexists; split; [reflexivity|];
           split; [reflexivity|];
           split; vm_compute; intuition discriminate|]).
  constructor.
Qed.

Lemma pools_are_proper :
  Forall proper_song bollywood_songs /\ Forall proper_song hollywood_songs /\
  Forall proper_song tollywood_songs /\ Forall proper_song kpop_songs.
Proof.
  repeat split;
    repeat (constructor;
            [eexists; eexists; split; [reflexivity|discriminate]|]);
    constructor.
Qed.

Lemma upto_nil {A : Type} (k : Z) : upto k (@nil A) = [].
Proof. unfold upto, slice. now rewrite skipn_nil, firstn_nil. Qed.

Lemma len_zero_nil {A : Type} (l : list A) : len l <= 0 -> l = [].
Proof. destruct l; [reflexivity|]. unfold len. simpl. lia. Qed.

Lemma firstn_succ_nth {A : Type} (d : A) (m : list A) (k : nat) :
  (k < List.length m)%nat -> firstn (S k) m = firstn k m ++ [nth k m d].
Proof.
  revert k. induction m as [|x m IH]; intros k H; [simpl in H; lia|].
  destruct k as [|k]; [reflexivity|].
  cbn [firstn nth app]. f_equal. apply IH. simpl in H. lia.
Qed.

(** Padding a prefix of the mock list gives the mock list back. *)
Lemma pad_prefix (max_outputs : Z) (mock : list value) :
  len mock = max_outputs ->
  forall fuel k, (fuel + k = List.length mock)%nat ->
    pad fuel max_outputs (VList mock) (firstn k mock) = Ok mock.
Proof.
  intros Hlen. induction fuel as [|fuel IH]; intros k Hk; cbn [pad].
  - replace k with (List.length mock) by lia. now rewrite firstn_all.
  - assert (Lk : len (firstn k mock) = Z.of_nat k).
    { unfold len. rewrite length_firstn. lia. }
    assert (G : (len (firstn k mock) <? max_outputs) = true).
    { apply Z.ltb_lt. rewrite Lk, <- Hlen. unfold len. lia. }
    rewrite G. cbn [value_len bind].
    rewrite pymod_ok by (unfold len; lia). cbn [bind value_index].
    rewrite Lk, Z.mod_small by (unfold len; lia).
    rewrite (index_ok VNone) by (unfold len; lia). cbn [bind].
    rewrite Nat2Z.id, <- firstn_succ_nth by lia.
    apply IH. lia.
Qed.

(** Padding a list that is not too long makes it exactly [max_outputs] long
    and adds entries of the mock list only. *)
Lemma pad_exact (max_outputs : Z) (mock : list value) :
  0 < len mock ->
  forall fuel l, Z.of_nat fuel = max_outputs - len l ->
  exists l', pad fuel max_outputs (VList mock) l = Ok l'
             /\ len l' = max_outputs
             /\ (forall P : value -> Prop,
                   Forall P l -> Forall P mock -> Forall P l').
Proof.
  intros Hpos. induction fuel as [|fuel IH]; intros l Hf; cbn [pad].
  - exists l. split; [reflexivity|]. split; [lia|auto].
  - assert (G : (len l <? max_outputs) = true) by (apply Z.ltb_lt; lia).
    rewrite G. cbn [value_len bind]. rewrite pymod_ok by lia.
    cbn [bind value_index].
    rewrite (index_ok VNone) by (apply Z.mod_pos_bound; assumption).
    cbn [bind].
    set (x := nth (Z.to_nat (len l mod len mock)) mock VNone).
    assert (Hx : In x mock).
    { apply nth_In. pose proof (Z.mod_pos_bound (len l) (len mock) Hpos).
      unfold len in *. lia. }
    destruct (IH (l ++ [x])) as (l' & E & Hl & HP).
    { rewrite len_app. change (len [x]) with 1. lia. }
    exists l'. split; [exact E|]. split; [exact Hl|].
    intros P Hall Hm. apply HP; [|assumption].
    apply Forall_app. split; [assumption|].
    constructor; [|constructor]. rewrite Forall_forall in Hm. now apply Hm.
Qed.

Section RecoveryInvariants.

Variable lower : str -> str.

Lemma parse_line_collects (max_outputs : Z) (st : parser) (raw : str) :
  len (p_captions st) <= Z.max 0 max_outputs ->
  len (p_songs st) <= Z.max 0 max_outputs ->
  Forall clean_caption (p_captions st) -> Forall proper_song (p_songs st) ->
  exists st', parse_line lower max_outputs st raw = Ok st'
              /\ len (p_captions st') <= Z.max 0 max_outputs
              /\ len (p_songs st') <= Z.max 0 max_outputs
              /\ Forall clean_caption (p_captions st')
              /\ Forall proper_song (p_songs st').
Proof.
  intros Lc Ls Hc Hs. unfold parse_line.
  destruct (str_eqb (strip raw) []); [exists st; auto|].
  destruct (contains (u "caption") (lower (strip raw))
            && (len (p_captions st) =? 0));
    [eexists; split; [reflexivity|auto]|].
  destruct (contains (u "song") (lower (strip raw))
            && (len (p_songs st) =? 0));
    [eexists; split; [reflexivity|auto]|].
  destruct (in_section InCaptions (current_section st)
            && (len (p_captions st) <? max_outputs)) eqn:Gc.
  { apply andb_true_iff in Gc. destruct Gc as [_ Gc]. apply Z.ltb_lt in Gc.
    destruct (negb (str_eqb (cleanup (strip raw)) [])
              && (len (cleanup (strip raw)) >? 5)) eqn:G;
      [|exists st; auto].
    eexists. split; [reflexivity|]. cbn [p_captions p_songs].
    split; [rewrite len_app; change (len [VStr (cleanup (strip raw))]) with 1; lia|].
    split; [assumption|]. split; [|assumption].
    apply Forall_app. split; [assumption|]. constructor; [|constructor].
    exists (cleanup (strip raw)). split; [reflexivity|].
    apply andb_true_iff in G. destruct G as [_ G].
    rewrite Z.gtb_ltb in G. apply Z.ltb_lt in G.
    split; [exact G|].
    split; [apply cleanup_no_asterisk|apply cleanup_no_hyphen]. }
  destruct (in_section InSongs (current_section st)
            && (len (p_songs st) <? max_outputs)) eqn:Gs; [|exists st; auto].
  apply andb_true_iff in Gs. destruct Gs as [_ Gs]. apply Z.ltb_lt in Gs.
  destruct (song_of_cleaned_line (strip raw)) as (new & -> & Ln & Hn).
  cbn [bind]. eexists. split; [reflexivity|]. cbn [p_captions p_songs].
  split; [assumption|]. split.
  - rewrite len_app. unfold len at 2. lia.
  - split; [assumption|]. apply Forall_app. now split.
Qed.

Lemma parse_lines_collect (max_outputs : Z) (lines : list str) :
  forall st,
  len (p_captions st) <= Z.max 0 max_outputs ->
  len (p_songs st) <= Z.max 0 max_outputs ->
  Forall clean_caption (p_captions st) -> Forall proper_song (p_songs st) ->
  exists st', parse_lines lower max_outputs st lines = Ok st'
              /\ len (p_captions st') <= Z.max 0 max_outputs
              /\ len (p_songs st') <= Z.max 0 max_outputs
              /\ Forall clean_caption (p_captions st')
              /\ Forall proper_song (p_songs st').
Proof.
  induction lines as [|raw rest IH]; intros st Lc Ls Hc Hs; cbn [parse_lines].
  - exists st. auto.
  - destruct (parse_line_collects max_outputs st raw Lc Ls Hc Hs)
      as (st1 & -> & Lc1 & Ls1 & Hc1 & Hs1).
    cbn [bind]. now apply IH.
Qed.

Lemma mock_lists_well_formed (prompt : str) (n : Z) :
  Forall clean_caption (map (pick base_captions (seed_value prompt)) (range n))
  /\ Forall proper_song
       (map (pick (select_songs lower prompt) (seed_value prompt)) (range n)).
Proof.
  split.
  - pose proof mock_captions_clean as C. rewrite Forall_forall in *.
    intros v Hv. apply C.
    pose proof (map_pick_in base_captions (seed_value prompt) (range n)) as M.
    rewrite Forall_forall in M. apply M; [reflexivity|assumption].
  - destruct pools_are_proper as (Pb & Ph & Pt & Pk).
    assert (P : Forall proper_song (select_songs lower prompt)).
    { destruct (select_songs_cases lower prompt) as [H|[H|[H|H]]];
        rewrite H; assumption. }
    rewrite Forall_forall in *. intros v Hv. apply P.
    pose proof (map_pick_in (select_songs lower prompt) (seed_value prompt)
                  (range n)) as M.
    rewrite Forall_forall in M. apply M; [|assumption].
    rewrite len_select_songs. lia.
Qed.

(** Line-based recovery in full: it returns, both lists have exactly
    [max(0, max_outputs)] entries, the captions are clean and the songs have
    titles. *)
Lemma parse_gemini_response_full (response_text : str) (max_outputs : Z) :
  exists cs ss,
    parse_gemini_response lower response_text max_outputs
    = Ok {| captions := VList cs; songs := ss |}
    /\ len cs = Z.max 0 max_outputs /\ len ss = Z.max 0 max_outputs
    /\ Forall clean_caption cs /\ Forall proper_song ss.
Proof.
  unfold parse_gemini_response.
  destruct (parse_lines_collect max_outputs (split newline response_text)
              (mkParser [] [] None))
    as (st & -> & Lc & Ls & Hc & Hs);
    try (cbn [p_captions p_songs]; unfold len; simpl; lia);
    try constructor.
  cbn [bind].
  destruct ((len (p_captions st) <? max_outputs)
            || (len (p_songs st) <? max_outputs)) eqn:G.
  - rewrite get_mock_response_ok. cbn [bind captions songs].
    assert (Hmax : 0 < max_outputs).
    { pose proof (len_nonneg (p_captions st)).
      pose proof (len_nonneg (p_songs st)).
      apply orb_true_iff in G. destruct G as [G|G]; apply Z.ltb_lt in G; lia. }
    destruct (mock_lists_well_formed [] max_outputs) as [Mc Ms].
    set (mc := map (pick base_captions (seed_value [])) (range max_outputs)) in *.
    set (ms := map (pick (select_songs lower []) (seed_value []))
                   (range max_outputs)) in *.
    assert (Hmc : 0 < len mc)
      by (unfold mc; rewrite len_map, len_range; lia).
    assert (Hms : 0 < len ms)
      by (unfold ms; rewrite len_map, len_range; lia).
    unfold fill.
    destruct (pad_exact max_outputs mc Hmc
                (Z.to_nat (max_outputs - len (p_captions st))) (p_captions st))
      as (cs & -> & Lcs & Pc); [lia|].
    destruct (pad_exact max_outputs ms Hms
                (Z.to_nat (max_outputs - len (p_songs st))) (p_songs st))
      as (ss & -> & Lss & Ps); [lia|].
    cbn [bind fst snd]. rewrite !upto_all by lia.
    eexists. eexists. split; [reflexivity|].
    split; [lia|]. split; [lia|]. split; [now apply Pc|now apply Ps].
  - cbn [bind fst snd]. apply orb_false_iff in G. destruct G as [G1 G2].
    apply Z.ltb_ge in G1, G2.
    destruct (Z.le_gt_cases 0 max_outputs) as [Hpos|Hneg].
    + rewrite !upto_all by lia. eexists. eexists. split; [reflexivity|].
      split; [lia|]. split; [lia|]. now split.
    + rewrite (len_zero_nil (p_captions st)) by lia.
      rewrite (len_zero_nil (p_songs st)) by lia.
      rewrite !upto_nil. eexists. eexists. split; [reflexivity|].
      split; [unfold len; simpl; lia|]. split; [unfold len; simpl; lia|].
      split; constructor.
Qed.

(** Line-based recovery always returns, and returns exactly
    [max(0, max_outputs)] captions and as many songs, whatever the text. *)
Theorem recovery_exact_count (response_text : str) (max_outputs : Z) :
  exists cs ss,
    parse_gemini_response lower response_text max_outputs
    = Ok {| captions := VList cs; songs := ss |}
    /\ len cs = Z.max 0 max_outputs /\ len ss = Z.max 0 max_outputs.
Proof.
  destruct (parse_gemini_response_full response_text max_outputs)
    as (cs & ss & E & Lc & Ls & _).
  now exists cs, ss.
Qed.

(** Every caption line-based recovery returns is a string of more than five
    characters with no asterisk and no hyphen in it: hyphens inside a caption
    are removed together with the bullets. *)
Theorem recovery_captions_clean (response_text : str) (max_outputs : Z) :
  exists r,
    parse_gemini_response lower response_text max_outputs = Ok r
    /\ exists cs, captions r = VList cs /\ Forall clean_caption cs.
Proof.
  destruct (parse_gemini_response_full response_text max_outputs)
    as (cs & ss & E & _ & _ & Hc & _).
  eexists. split; [exact E|]. now exists cs.
Qed.


Lemma parse_lines_without_headers (max_outputs : Z) (lines : list str)
    (st : parser) :
  current_section st = None ->
  Forall (no_header lower) lines ->
  parse_lines lower max_outputs st lines = Ok st.
Proof.
  intros Hsec H. induction H as [|raw rest [Hc Hs] _ IH]; cbn [parse_lines];
    [reflexivity|].
  assert (E : parse_line lower max_outputs st raw = Ok st).
  { unfold parse_line. destruct (str_eqb (strip raw) []); [reflexivity|].
    rewrite Hc, Hs, Hsec. reflexivity. }
  rewrite E. exact IH.
Qed.

(** A text without header line (no line with "caption" or "song" in it)
    yields nothing: line-based recovery then returns the output of the mock
    generator for the empty prompt. *)
Theorem recovery_without_headers (response_text : str) (max_outputs : Z) :
  Forall (no_header lower) (split newline response_text) ->
  parse_gemini_response lower response_text max_outputs
  = get_mock_response lower [] max_outputs.
Proof.
  intros H. unfold parse_gemini_response.
  rewrite (parse_lines_without_headers max_outputs _ (mkParser [] [] None)
             eq_refl H).
  cbn [bind p_captions p_songs]. rewrite get_mock_response_ok.
  change (len (@nil value)) with 0.
  destruct (0 <? max_outputs) eqn:G; cbn [orb bind captions songs].
  - apply Z.ltb_lt in G.
    set (mc := map (pick base_captions (seed_value [])) (range max_outputs)).
    set (ms := map (pick (select_songs lower []) (seed_value []))
                   (range max_outputs)).
    assert (Lmc : len mc = max_outputs)
      by (unfold mc; rewrite len_map, len_range; lia).
    assert (Lms : len ms = max_outputs)
      by (unfold ms; rewrite len_map, len_range; lia).
    unfold fill. change (len (@nil value)) with 0. rewrite Z.sub_0_r.
    change (@nil value) with (firstn 0 mc) at 1.
    rewrite (pad_prefix max_outputs mc Lmc) by (unfold len in Lmc; lia).
    cbn [bind]. change (@nil value) with (firstn 0 ms) at 1.
    rewrite (pad_prefix max_outputs ms Lms) by (unfold len in Lms; lia).
    cbn [bind fst snd]. rewrite !upto_all by lia. reflexivity.
  - apply Z.ltb_ge in G. cbn [fst snd]. rewrite !upto_nil.
    unfold range. replace (Z.to_nat max_outputs) with 0%nat by lia.
    reflexivity.
Qed.

End RecoveryInvariants.


(** *** The adapter, continued *)

Lemma find_absent (c : N) (s : str) (i : Z) :
  ~ In c s -> find_from [c] s i = -1.
Proof.
  revert i. induction s as [|d s IH]; intros i H; cbn [find_from startswith].
  - reflexivity.
  - destruct (c =? d)%N eqn:E.
    + apply N.eqb_eq in E. subst d. exfalso. apply H. now left.
    + cbn [andb]. apply IH. intros Hin. apply H. now right.
Qed.

Lemma rfind_absent (c : N) (s : str) (i best : Z) :
  ~ In c s -> rfind_from [c] s i best = best.
Proof.
  revert i. induction s as [|d s IH]; intros i H; cbn [rfind_from startswith].
  - reflexivity.
  - destruct (c =? d)%N eqn:E.
    + apply N.eqb_eq in E. subst d. exfalso. apply H. now left.
    + cbn [andb]. apply IH. intros Hin. apply H. now right.
Qed.

Lemma formatted_kept (entry : value) :
  List.length (formatted entry) = if kept entry then 1%nat else 0%nat.
Proof.
  unfold formatted.
  destruct entry as [| b | n | f | s | l | d]; cbn [format_song kept song_record];
    try reflexivity.
  - destruct (len (split (u " - ") s) >=? 2) eqn:G; [|reflexivity].
    destruct (split (u " - ") s) as [|p0 [|p1 rest]] eqn:E;
      try (vm_compute in G; discriminate).
    reflexivity.
  - now destruct (has_key (u "title") d && has_key (u "artist") d).
Qed.

Lemma formatted_record (entry : value) :
  song_record entry = true -> formatted entry = [entry].
Proof.
  unfold formatted. destruct entry; try discriminate. cbn [song_record format_song].
  now intros ->.
Qed.


Section AdapterPaths.

Variable lower : str -> str.
Variable json_loads : str -> res value.
Variable GEMINI_API_KEY : option str.
Variable generate_content : str -> list Byte.byte -> Z -> res str.

(** The JSON path with a decoded object that has both keys. *)
Lemma json_path_result (prompt : str) (image_bytes : list Byte.byte) (n : Z)
    (raw : str) (d : list (str * value)) (c s0 : value) :
  let text := strip raw in
  let start_idx := find (u "{") text in
  let end_idx := rfind (u "}") text + 1 in
  no_key GEMINI_API_KEY = false ->
  generate_content prompt image_bytes n = Ok raw ->
  start_idx <> -1 -> end_idx <> 0 ->
  json_loads (slice start_idx end_idx text) = Ok (VDict d) ->
  lookup (u "captions") d = Some c ->
  lookup (u "songs") d = Some s0 ->
  call_gemini lower json_loads GEMINI_API_KEY generate_content
    prompt image_bytes n
  = try_except
      (caps <- value_upto n c ;;
       sngs <- value_upto n s0 ;;
       entries <- iter sngs ;;
       Ok {| captions := caps; songs := flat_map formatted entries |})
      (fun _ => get_mock_response lower prompt n).
Proof.
  intros text start_idx end_idx Hkey Hgen Hstart Hend Hjson Hc Hs.
  unfold call_gemini. rewrite Hkey, Hgen. cbn [bind].
  unfold handle_response, try_json. fold text. fold start_idx. fold end_idx.
  apply Z.eqb_neq in Hstart, Hend. rewrite Hstart, Hend. cbn [negb andb].
  rewrite Hjson. cbn [bind py_in]. unfold has_key. rewrite Hc, Hs.
  cbn [bind andb getitem]. rewrite Hc, Hs. cbn [bind].
  destruct c; cbn [value_upto bind try_except]; try reflexivity;
    destruct s0; cbn [value_upto bind try_except iter]; try reflexivity;
    rewrite format_songs_ok; reflexivity.
Qed.

(** A response without an opening brace, or without a closing brace, is not
    given to [json.loads] at all: whatever the decoder would do, the adapter
    returns what line-based recovery makes of the stripped text. *)
Theorem adapter_without_braces (prompt : str) (image_bytes : list Byte.byte)
    (n : Z) (raw : str) :
  no_key GEMINI_API_KEY = false ->
  generate_content prompt image_bytes n = Ok raw ->
  ~ In 123%N raw \/ ~ In 125%N raw ->
  call_gemini lower json_loads GEMINI_API_KEY generate_content
    prompt image_bytes n
  = parse_gemini_response lower (strip raw) n.
Proof.
  intros Hkey Hgen Hno. unfold call_gemini. rewrite Hkey, Hgen. cbn [bind].
  unfold handle_response, try_json.
  assert (G : negb (find (u "{") (strip raw) =? -1)
              && negb (rfind (u "}") (strip raw) + 1 =? 0) = false).
  { destruct Hno as [H|H].
    - unfold find. change (u "{") with [123%N].
      rewrite find_absent; [reflexivity|].
      intros Hin. apply H. now apply strip_incl.
    - unfold rfind. change (u "}") with [125%N].
      rewrite rfind_absent; [apply andb_false_r|].
      intros Hin. apply H. now apply strip_incl. }
  rewrite G.
  destruct (parse_gemini_response_ok lower (strip raw) n) as (cs & ss & -> & _).
  reflexivity.
Qed.

(** A decoded object that lacks the [captions] key or the [songs] key is not
    used: the adapter returns what line-based recovery makes of the text. *)
Theorem adapter_missing_key (prompt : str) (image_bytes : list Byte.byte)
    (n : Z) (raw : str) (d : list (str * value)) :
  let text := strip raw in
  no_key GEMINI_API_KEY = false ->
  generate_content prompt image_bytes n = Ok raw ->
  json_loads (slice (find (u "{") text) (rfind (u "}") text + 1) text)
  = Ok (VDict d) ->
  lookup (u "captions") d = None \/ lookup (u "songs") d = None ->
  call_gemini lower json_loads GEMINI_API_KEY generate_content
    prompt image_bytes n
  = parse_gemini_response lower text n.
Proof.
  intros text Hkey Hgen Hjson Hmiss.
  unfold call_gemini. rewrite Hkey, Hgen. cbn [bind].
  unfold handle_response, try_json. fold text.
  destruct (parse_gemini_response_ok lower text n) as (cs & ss & E & _).
  destruct (negb (find (u "{") text =? -1)
            && negb (rfind (u "}") text + 1 =? 0));
    [|now rewrite E].
  rewrite Hjson. cbn [bind py_in]. unfold has_key.
  destruct Hmiss as [H|H]; rewrite H.
  - cbn [bind andb]. now rewrite E.
  - destruct (lookup (u "captions") d); cbn [bind andb]; now rewrite E.
Qed.

(** A decoded object whose [captions] or [songs] value is neither an array
    nor a string (a number, a boolean, null, an object) makes the slice
    raise; the exception is caught and the adapter returns the output of the
    mock generator. *)
Theorem adapter_unsliceable_value (prompt : str) (image_bytes : list Byte.byte)
    (n : Z) (raw : str) (d : list (str * value)) (c s0 : value) :
  let text := strip raw in
  let start_idx := find (u "{") text in
  let end_idx := rfind (u "}") text + 1 in
  no_key GEMINI_API_KEY = false ->
  generate_content prompt image_bytes n = Ok raw ->
  start_idx <> -1 -> end_idx <> 0 ->
  json_loads (slice start_idx end_idx text) = Ok (VDict d) ->
  lookup (u "captions") d = Some c ->
  lookup (u "songs") d = Some s0 ->
  sliceable c = false \/ sliceable s0 = false ->
  call_gemini lower json_loads GEMINI_API_KEY generate_content
    prompt image_bytes n
  = get_mock_response lower prompt n.
Proof.
  intros text start_idx end_idx Hkey Hgen Hstart Hend Hjson Hc Hs Hbad.
  rewrite (json_path_result prompt image_bytes n raw d c s0)
    by assumption.
  destruct Hbad as [H|H].
  - destruct c; try discriminate H; reflexivity.
  - destruct (value_upto n c); [|reflexivity]. cbn [bind].
    destruct s0; try discriminate H; reflexivity.
Qed.

(** On the JSON path with arrays, entries of the songs array that are
    neither a string nor a dictionary with both keys are dropped without
    replacement, so the songs list has as many entries as the first [n]
    entries of the array have kept ones; dictionaries with both keys are
    passed through unchanged, so an array of such dictionaries is returned as
    its first [n] entries. *)
Theorem json_path_keeps_and_drops (prompt : str) (image_bytes : list Byte.byte)
    (n : Z) (raw : str) (d : list (str * value)) (cs ss : list value) :
  let text := strip raw in
  let start_idx := find (u "{") text in
  let end_idx := rfind (u "}") text + 1 in
  no_key GEMINI_API_KEY = false ->
  generate_content prompt image_bytes n = Ok raw ->
  start_idx <> -1 -> end_idx <> 0 ->
  json_loads (slice start_idx end_idx text) = Ok (VDict d) ->
  lookup (u "captions") d = Some (VList cs) ->
  lookup (u "songs") d = Some (VList ss) ->
  exists r,
    call_gemini lower json_loads GEMINI_API_KEY generate_content
      prompt image_bytes n = Ok r
    /\ captions r = VList (upto n cs)
    /\ List.length (songs r) = List.length (filter kept (upto n ss))
    /\ (all_records ss -> songs r = upto n ss).
Proof.
  intros text start_idx end_idx Hkey Hgen Hstart Hend Hjson Hc Hs.
  rewrite (json_path_result prompt image_bytes n raw d (VList cs) (VList ss))
    by assumption.
  cbn [value_upto bind iter try_except]. eexists. split; [reflexivity|].
  cbn [captions songs]. split; [reflexivity|]. split.
  - induction (upto n ss) as [|e l IH]; [reflexivity|].
    cbn [flat_map filter]. rewrite length_app, formatted_kept, IH.
    now destruct (kept e).
  - intros R. apply (upto_records n) in R. unfold all_records in R.
    induction R as [|e l He _ IH]; [reflexivity|].
    cbn [flat_map]. now rewrite (formatted_record e He), IH.
Qed.


End AdapterPaths.

(** *** The mock generator, continued *)

Lemma upto_firstn {A : Type} (k : Z) (l : list A) :
  0 <= k -> upto k l = firstn (Z.to_nat k) l.
Proof.
  intros Hk. pose proof (len_nonneg l). unfold upto, slice, clip.
  replace (0 <? 0) with false by reflexivity.
  destruct (k <? 0) eqn:E; [apply Z.ltb_lt in E; lia|].
  rewrite (Z.min_l 0) by lia. cbn [Z.to_nat skipn]. rewrite Z.sub_0_r.
  destruct (Z.le_gt_cases k (len l)) as [Hle|Hgt].
  - now rewrite Z.min_l by lia.
  - rewrite Z.min_r by lia. unfold len in *.
    rewrite !firstn_all2 by lia. reflexivity.
Qed.

Lemma seq_prefix (a n m : nat) :
  (n <= m)%nat -> firstn n (seq a m) = seq a n.
Proof.
  revert a m. induction n as [|n IH]; intros a m H; [reflexivity|].
  destruct m as [|m]; [lia|]. cbn [seq firstn]. f_equal. apply IH. lia.
Qed.

Lemma range_prefix (n m : Z) :
  0 <= n <= m -> range n = firstn (Z.to_nat n) (range m).
Proof.
  intros H. unfold range. rewrite firstn_map, seq_prefix by lia. reflexivity.
Qed.

Lemma in_range (n i : Z) : In i (range n) -> 0 <= i < n.
Proof.
  unfold range. rewrite in_map_iff. intros (k & <- & Hk).
  apply in_seq in Hk. lia.
Qed.

Lemma NoDup_range (n : Z) : NoDup (range n).
Proof.
  unfold range. generalize (seq_NoDup (Z.to_nat n) 0).
  induction 1 as [|k l Hk _ IH]; cbn [map]; constructor; [|exact IH].
  rewrite in_map_iff. intros (j & E & Hj). apply Nat2Z.inj in E. now subst.
Qed.

Lemma NoDup_map_in {A B : Type} (f : A -> B) (l : list A) :
  (forall x y, In x l -> In y l -> f x = f y -> x = y) ->
  NoDup l -> NoDup (map f l).
Proof.
  intros Hinj H. induction H as [|x l Hx _ IH]; cbn [map]; constructor.
  - rewrite in_map_iff. intros (y & E & Hy). apply Hx.
    rewrite (Hinj x y); [assumption|now left|now right|now symmetry].
  - apply IH. intros a b Ha Hb. apply Hinj; now right.
Qed.

Lemma pools_have_no_duplicates :
  NoDup base_captions /\ NoDup bollywood_songs /\ NoDup hollywood_songs
  /\ NoDup tollywood_songs /\ NoDup kpop_songs.
Proof.
  repeat split;
    repeat (constructor;
            [intros H; repeat (destruct H as [H|H]; [discriminate H|]); exact H|]);
    constructor.
Qed.

Lemma picks_distinct (pool : list value) (seed : Z) (n : Z) :
  NoDup pool -> len pool = 7 -> n <= 7 ->
  NoDup (map (pick pool seed) (range n)).
Proof.
  intros Hnd Hlen Hn. apply NoDup_map_in; [|apply NoDup_range].
  intros i j Hi Hj E. apply in_range in Hi, Hj. unfold pick in E.
  rewrite Hlen in E.
  pose proof (Z.mod_pos_bound (seed + i) 7 ltac:(lia)) as Bi.
  pose proof (Z.mod_pos_bound (seed + j) 7 ltac:(lia)) as Bj.
  apply (proj1 (NoDup_nth pool VNone) Hnd) in E;
    try (unfold len in Hlen; lia).
  assert (E' : (seed + i) mod 7 = (seed + j) mod 7) by lia.
  clear E Bi Bj. Z.to_euclidean_division_equations. lia.
Qed.

Section MockMore.

Variable lower : str -> str.

(** Asking the mock generator for fewer outputs gives a prefix of what it
    gives for more: the first [n] captions and songs do not depend on how
    many are asked for. *)
Theorem mock_prefix (prompt : str) (n m : Z) :
  0 <= n <= m ->
  exists caps sngs,
    get_mock_response lower prompt m
    = Ok {| captions := VList caps; songs := sngs |}
    /\ get_mock_response lower prompt n
       = Ok {| captions := VList (upto n caps); songs := upto n sngs |}.
Proof.
  intros H. rewrite !get_mock_response_ok. eexists. eexists.
  split; [reflexivity|].
  rewrite !upto_firstn, !firstn_map, <- (range_prefix n m) by lia.
  reflexivity.
Qed.

(** Up to seven outputs the mock generator repeats nothing: the captions it
    returns are pairwise different, and so are the songs. *)
Theorem mock_no_repeats (prompt : str) (count : Z) :
  count <= 7 ->
  exists caps sngs,
    get_mock_response lower prompt count
    = Ok {| captions := VList caps; songs := sngs |}
    /\ NoDup caps /\ NoDup sngs.
Proof.
  intros H. rewrite get_mock_response_ok. eexists. eexists.
  split; [reflexivity|].
  destruct pools_have_no_duplicates as (Nc & Nb & Nh & Nt & Nk).
  split.
  - apply picks_distinct; [assumption|reflexivity|assumption].
  - apply picks_distinct; [|apply len_select_songs|assumption].
    destruct (select_songs_cases lower prompt) as [E|[E|[E|E]]];
      rewrite E; assumption.
Qed.

(** Beyond seven outputs the mock generator repeats itself with period
    seven: output [i + 7] is output [i], for the captions and for the
    songs. *)
Theorem mock_period_seven (prompt : str) (count i : Z) :
  0 <= i -> i + 7 < count ->
  exists caps sngs c s,
    get_mock_response lower prompt count
    = Ok {| captions := VList caps; songs := sngs |}
    /\ index caps i = Ok c /\ index caps (i + 7) = Ok c
    /\ index sngs i = Ok s /\ index sngs (i + 7) = Ok s.
Proof.
  intros Hi Hc. rewrite get_mock_response_ok.
  eexists. eexists.
  exists (pick base_captions (seed_value prompt) i),
         (pick (select_songs lower prompt) (seed_value prompt) i).
  split; [reflexivity|]. rewrite !index_map_range by lia.
  assert (P : forall pool, len pool = 7 ->
                pick pool (seed_value prompt) (i + 7)
                = pick pool (seed_value prompt) i).
  { intros pool L. unfold pick. rewrite L. do 2 f_equal.
    replace (seed_value prompt + (i + 7))
      with (seed_value prompt + i + 1 * 7) by lia.
    apply Z.mod_add. lia. }
  rewrite (P base_captions) by reflexivity.
  rewrite (P (select_songs lower prompt)) by apply len_select_songs.
  repeat split; reflexivity.
Qed.

End MockMore.

(** *** The parameters read back from the prompt *)

Lemma startswith_through (m a : str) (c : N) (y : str) :
  startswith m (a ++ c :: y) = true -> startswith m a = true \/ In c m.
Proof.
  revert a. induction m as [|x m IH]; intros a H; [now left|].
  destruct a as [|d a]; cbn [app startswith] in *.
  - apply andb_true_iff in H. destruct H as [H _]. apply N.eqb_eq in H.
    right. now left.
  - apply andb_true_iff in H. destruct H as [H1 H2].
    destruct (IH a H2) as [H|H].
    + left. now rewrite H1, H.
    + right. now right.
Qed.

Lemma contains_suffix (m v1 v2 : str) :
  startswith m v2 = true -> contains m (v1 ++ v2) = true.
Proof.
  intros H. induction v1 as [|c v1 IH]; cbn [app].
  - now apply contains_startswith.
  - cbn [contains]. rewrite IH. apply orb_true_r.
Qed.

(** A stretch of text in which no occurrence of the separator begins is part
    of the first piece. *)
Lemma split_head_long (sep x y cur : str) :
  (forall x1 x2, x = x1 ++ x2 -> x2 <> [] -> startswith sep (x2 ++ y) = false) ->
  exists p tl, split_from sep (x ++ y) 0 cur = (rev cur ++ x ++ p) :: tl.
Proof.
  revert cur. induction x as [|c x IH]; intros cur H.
  - destruct (split_from_head sep y 0 cur) as (p & tl & E).
    now exists p, tl.
  - cbn [app split_from].
    pose proof (H [] (c :: x) eq_refl ltac:(discriminate)) as S.
    cbn [app] in S. rewrite S.
    destruct (IH (c :: cur)) as (p & tl & E).
    { intros x1 x2 -> Hx2. apply (H (c :: x1) x2); [reflexivity|assumption]. }
    exists p, tl. rewrite E. cbn [rev]. now rewrite <- app_assoc.
Qed.

Lemma contains_char_absent (c : N) (v : str) :
  ~ In c v -> contains [c] v = false.
Proof.
  intros H. destruct (contains [c] v) eqn:E; [|reflexivity].
  exfalso. apply H. apply (contains_incl [c] v); [discriminate|assumption|].
  now left.
Qed.

(** The extraction on a prompt cut at the marker and at the period. *)
Lemma prompt_param_split (marker default a v rest : str) :
  marker <> [] -> ~ In 46%N marker ->
  contains marker (a ++ removelast marker) = false ->
  contains marker v = false -> ~ In 46%N v ->
  prompt_param marker default (a ++ marker ++ v ++ u "." ++ rest)
  = Ok (strip v).
Proof.
  intros Hm Hdot Hfirst Hv Hvdot. unfold prompt_param.
  rewrite contains_app. unfold split.
  rewrite (split_first marker a (v ++ u "." ++ rest) []) by assumption.
  destruct (split_head_long marker (v ++ u ".") rest []) as (p & tl & E).
  { intros x1 x2 Hx Hx2.
    destruct (startswith marker (x2 ++ rest)) eqn:S; [|reflexivity].
    exfalso.
    assert (Hx2' : exists v2, x2 = v2 ++ u "." /\ exists v1, v = v1 ++ v2).
    { destruct (exists_last Hx2) as (x2' & c & ->).
      rewrite app_assoc in Hx. apply app_inj_tail in Hx.
      destruct Hx as [-> <-]. exists x2'. split; [reflexivity|now exists x1]. }
    destruct Hx2' as (v2 & -> & v1 & ->).
    rewrite <- app_assoc in S.
    destruct (startswith_through marker v2 46%N rest S) as [H|H].
    - rewrite (contains_suffix marker v1 v2 H) in Hv. discriminate.
    - contradiction. }
  rewrite <- app_assoc in E. rewrite E.
  change (index ((rev [] ++ a) :: (rev [] ++ (v ++ u ".") ++ p) :: tl) 1)
    with (@Ok str ((v ++ u ".") ++ p)).
  cbn [bind]. rewrite <- app_assoc.
  rewrite (split_first (u ".") v p []);
    [reflexivity|discriminate|].
  change (removelast (u ".")) with (@nil N). rewrite app_nil_r.
  now apply contains_char_absent.
Qed.

(** The extraction reads back a value that is written after the marker and
    closed by a period: for a prompt [a ++ marker ++ v ++ "." ++ rest] in
    which the marker occurs first where it is written, with neither a period
    nor the marker in [v], the parameter is [v] stripped. *)
Theorem prompt_param_reads_back (marker default a v rest : str) :
  marker <> [] -> ~ In 46%N marker ->
  contains marker (a ++ removelast marker) = false ->
  contains marker v = false -> ~ In 46%N v ->
  prompt_param marker default (a ++ marker ++ v ++ u "." ++ rest)
  = Ok (strip v).
Proof.
  intros Hm Hdot Hfirst Hv Hvdot.
  now apply prompt_param_split.
Qed.

Lemma startswith_agree (m l y : str) :
  startswith m (l ++ y) = true -> agree m l = true.
Proof.
  revert l. induction m as [|x m IH]; intros [|c l] H; try reflexivity.
  cbn [app startswith] in H. cbn [agree].
  apply andb_true_iff in H. destruct H as [-> H]. now rewrite (IH l).
Qed.

Lemma no_start_suffix (m l y : str) :
  no_start m l = true ->
  forall x1 x2, l = x1 ++ x2 -> x2 <> [] -> startswith m (x2 ++ y) = false.
Proof.
  intros H x1. revert l H. induction x1 as [|c x1 IH]; intros l H x2 -> Hx2.
  - destruct x2 as [|c x2]; [contradiction|]. cbn [app no_start] in H.
    apply andb_true_iff in H. destruct H as [H _].
    destruct (startswith m ((c :: x2) ++ y)) eqn:S; [|reflexivity].
    apply startswith_agree in S. rewrite S in H. discriminate.
  - cbn [app no_start] in H. apply andb_true_iff in H. destruct H as [_ H].
    now apply (IH (x1 ++ x2) H).
Qed.

(** Text in which no occurrence begins can be skipped in the search. *)
Lemma no_start_skip (m l y : str) :
  no_start m l = true -> contains m (l ++ y) = contains m y.
Proof.
  induction l as [|c l IH]; intros H; [reflexivity|].
  cbn [app contains].
  pose proof (no_start_suffix m (c :: l) y H [] (c :: l) eq_refl
                ltac:(discriminate)) as S.
  cbn [app] in S. rewrite S. cbn [no_start] in H.
  apply andb_true_iff in H. destruct H as [_ H]. now rewrite IH.
Qed.

Lemma lowercase_no_start (c0 : N) (m x : str) :
  lowercase c0 = false -> Forall (fun c => lowercase c = true) x ->
  no_start (c0 :: m) x = true.
Proof.
  intros Hc H. induction H as [|c x Hl _ IH]; [reflexivity|].
  cbn [no_start agree]. rewrite IH.
  destruct (c0 =? c)%N eqn:E; [|reflexivity].
  apply N.eqb_eq in E. subst c. congruence.
Qed.

Lemma lowercase_not_in (c0 : N) (x : str) :
  lowercase c0 = false -> Forall (fun c => lowercase c = true) x -> ~ In c0 x.
Proof.
  intros Hc H Hin. rewrite Forall_forall in H. apply H in Hin. congruence.
Qed.

Lemma not_in_app {A : Type} (c : A) (x y : list A) :
  ~ In c x -> ~ In c y -> ~ In c (x ++ y).
Proof. intros Hx Hy H. apply in_app_or in H. tauto. Qed.

Lemma existsb_not_in (c : N) (l : str) :
  existsb (N.eqb c) l = false -> ~ In c l.
Proof.
  intros H Hin. assert (E : existsb (N.eqb c) l = true).
  { apply existsb_exists. exists c. split; [assumption|apply N.eqb_refl]. }
  congruence.
Qed.

Lemma strip_keeps_last (x : str) (c : N) :
  isspace c = false -> strip (x ++ [c]) = lstrip x ++ [c].
Proof.
  intros Hc. unfold strip, rstrip. rewrite lstrip_snoc by assumption.
  rewrite rev_unit. cbn [lstrip]. rewrite Hc. cbn [rev].
  now rewrite rev_involutive.
Qed.

(** What [call_gemini] takes for the region is the region followed by the
    rest of the prompt up to the period in "A.R. Rahman". *)
Lemma region_of_route_prompt (num : Z) (length tone region mood : str) :
  1 <= num <= 6 ->
  Forall (fun c => lowercase c = true) length ->
  Forall (fun c => lowercase c = true) tone ->
  Forall (fun c => lowercase c = true) region ->
  Forall (fun c => lowercase c = true) mood ->
  prompt_param (u "Song region: ") (u "any")
    (build_prompt num length tone region mood)
  = Ok (strip (region_read_back region mood))
  /\ strip (region_read_back region mood) <> region.
Proof.
  intros Hnum Hl Ht Hr Hm. split.
  - set (a := u "You are a social-media assistant. I will provide a photo. Generate "
          ++ str_of_int num ++ u " caption suggestions and " ++ str_of_int num
          ++ u " song suggestions." ++ newline
          ++ newline
          ++ u "CRITICAL REQUIREMENTS:" ++ newline
          ++ u "- Caption length: " ++ length ++ newline
          ++ u "- Tone: " ++ tone ++ u " " ++ newline ++ u "- ").
    set (rest := u "R. Rahman, etc.)"
          ++ newline
          ++ u "- hollywood: Only English/Western pop songs" ++ newline
          ++ u "- tollywood: Only Telugu cinema songs" ++ newline
          ++ u "- kpop: Only Korean pop songs" ++ newline
          ++ u "- any: Mix from different regions" ++ newline
          ++ newline
          ++ u "Provide captions as single lines and songs with title and artist.").
    assert (E : build_prompt num length tone region mood
                = a ++ u "Song region: " ++ region_read_back region mood
                    ++ u "." ++ rest).
    { unfold build_prompt, a, rest, region_read_back.
      rewrite <- !app_assoc. do 40 f_equal. }
    rewrite E.
    assert (Hs : lowercase 83 = false) by reflexivity.
    assert (Hd : lowercase 46 = false) by reflexivity.
    assert (Hnum' : exists d, str_of_int num = [d]
                              /\ no_start (u "Song region: ") [d] = true).
    { assert (C : num = 1 \/ num = 2 \/ num = 3 \/ num = 4 \/ num = 5
                  \/ num = 6) by lia.
      destruct C as [->|[->|[->|[->|[->| ->]]]]];
        eexists; split; reflexivity. }
    destruct Hnum' as (d & Ed & Nd).
    apply prompt_param_split.
    + discriminate.
    + apply existsb_not_in. reflexivity.
    + unfold a. rewrite Ed, <- !app_assoc.
      rewrite (no_start_skip _ (u "You are a social-media assistant. I will provide a photo. Generate "))
        by reflexivity.
      rewrite (no_start_skip _ [d]) by assumption.
      rewrite (no_start_skip _ (u " caption suggestions and ")) by reflexivity.
      rewrite (no_start_skip _ [d]) by assumption.
      rewrite (no_start_skip _ (u " song suggestions.")) by reflexivity.
      rewrite !(no_start_skip _ newline) by reflexivity.
      rewrite (no_start_skip _ (u "CRITICAL REQUIREMENTS:")) by reflexivity.
      rewrite !(no_start_skip _ newline) by reflexivity.
      rewrite (no_start_skip _ (u "- Caption length: ")) by reflexivity.
      rewrite (no_start_skip _ length) by now apply lowercase_no_start.
      rewrite !(no_start_skip _ newline) by reflexivity.
      rewrite (no_start_skip _ (u "- Tone: ")) by reflexivity.
      rewrite (no_start_skip _ tone) by now apply lowercase_no_start.
      reflexivity.
    + unfold region_read_back.
      rewrite (no_start_skip _ region) by now apply lowercase_no_start.
      rewrite (no_start_skip _ (u " (THIS IS MANDATORY - only suggest songs from this region)"))
        by reflexivity.
      rewrite !(no_start_skip _ newline) by reflexivity.
      rewrite (no_start_skip _ (u "- Song mood: ")) by reflexivity.
      rewrite (no_start_skip _ mood) by now apply lowercase_no_start.
      rewrite !(no_start_skip _ newline) by reflexivity.
      rewrite (no_start_skip _ (u "For song region '")) by reflexivity.
      rewrite (no_start_skip _ region) by now apply lowercase_no_start.
      rewrite (no_start_skip _ (u "':")) by reflexivity.
      rewrite !(no_start_skip _ newline) by reflexivity.
      reflexivity.
    + unfold region_read_back.
      repeat (apply not_in_app;
              [first [apply existsb_not_in; reflexivity
                     |apply (lowercase_not_in 46%N); [reflexivity|assumption]]|]).
      apply existsb_not_in. reflexivity.
  - unfold region_read_back.
    change (u "- bollywood: Only Hindi/Bollywood songs (Arijit Singh, Shreya Ghoshal, A")
      with (u "- bollywood: Only Hindi/Bollywood songs (Arijit Singh, Shreya Ghoshal, "
            ++ [65%N]).
    rewrite !app_assoc. rewrite strip_keeps_last by reflexivity.
    intros E. apply (lowercase_not_in 65%N region); [reflexivity|assumption|].
    rewrite <- E. apply in_or_app. right. now left.
Qed.

Ltac skip_chunks :=
  repeat (rewrite no_start_skip
            by (reflexivity || assumption
                || (apply lowercase_no_start; [reflexivity|assumption]))).

Ltac no_period :=
  repeat (apply not_in_app;
          [first [apply existsb_not_in; reflexivity
                 |apply (lowercase_not_in 46%N); [reflexivity|assumption]]|]);
  apply existsb_not_in; reflexivity.

Lemma digit_of_count (num : Z) :
  1 <= num <= 6 ->
  exists d, str_of_int num = [d]
            /\ no_start (u "Song mood: ") [d] = true
            /\ no_start (u "Tone: ") [d] = true
            /\ no_start (u "Caption length: ") [d] = true.
Proof.
  intros H.
  assert (C : num = 1 \/ num = 2 \/ num = 3 \/ num = 4 \/ num = 5 \/ num = 6)
    by lia.
  destruct C as [->|[->|[->|[->|[->| ->]]]]];
    eexists; repeat split; reflexivity.
Qed.

Lemma mood_of_route_prompt (num : Z) (length tone region mood : str) :
  1 <= num <= 6 ->
  Forall (fun c => lowercase c = true) length ->
  Forall (fun c => lowercase c = true) tone ->
  Forall (fun c => lowercase c = true) region ->
  Forall (fun c => lowercase c = true) mood ->
  prompt_param (u "Song mood: ") (u "chill")
    (build_prompt num length tone region mood)
  = Ok (strip (mood_read_back region mood)).
Proof.
  intros Hnum Hl Ht Hr Hm.
  set (a := u "You are a social-media assistant. I will provide a photo. Generate "
        ++ str_of_int num ++ u " caption suggestions and " ++ str_of_int num
        ++ u " song suggestions." ++ newline
        ++ newline
        ++ u "CRITICAL REQUIREMENTS:" ++ newline
        ++ u "- Caption length: " ++ length ++ newline
        ++ u "- Tone: " ++ tone ++ u " " ++ newline
        ++ u "- Song region: " ++ region
        ++ u " (THIS IS MANDATORY - only suggest songs from this region)"
        ++ newline ++ u "- ").
  set (rest := u "R. Rahman, etc.)"
        ++ newline
        ++ u "- hollywood: Only English/Western pop songs" ++ newline
        ++ u "- tollywood: Only Telugu cinema songs" ++ newline
        ++ u "- kpop: Only Korean pop songs" ++ newline
        ++ u "- any: Mix from different regions" ++ newline
        ++ newline
        ++ u "Provide captions as single lines and songs with title and artist.").
  assert (E : build_prompt num length tone region mood
              = a ++ u "Song mood: " ++ mood_read_back region mood
                  ++ u "." ++ rest).
  { unfold build_prompt, a, rest, mood_read_back.
    rewrite <- !app_assoc. do 40 f_equal. }
  rewrite E. destruct (digit_of_count num Hnum) as (d & Ed & Nd & _).
  apply prompt_param_split.
  - discriminate.
  - apply existsb_not_in. reflexivity.
  - unfold a. rewrite Ed, <- !app_assoc. skip_chunks. reflexivity.
  - unfold mood_read_back. skip_chunks. reflexivity.
  - unfold mood_read_back. no_period.
Qed.

Lemma tone_of_route_prompt (num : Z) (length tone region mood : str) :
  1 <= num <= 6 ->
  Forall (fun c => lowercase c = true) length ->
  Forall (fun c => lowercase c = true) tone ->
  Forall (fun c => lowercase c = true) region ->
  Forall (fun c => lowercase c = true) mood ->
  prompt_param (u "Tone: ") (u "aesthetic")
    (build_prompt num length tone region mood)
  = Ok (strip (tone_read_back tone region mood)).
Proof.
  intros Hnum Hl Ht Hr Hm.
  set (a := u "You are a social-media assistant. I will provide a photo. Generate "
        ++ str_of_int num ++ u " caption suggestions and " ++ str_of_int num
        ++ u " song suggestions." ++ newline
        ++ newline
        ++ u "CRITICAL REQUIREMENTS:" ++ newline
        ++ u "- Caption length: " ++ length ++ newline ++ u "- ").
  set (rest := u "R. Rahman, etc.)"
        ++ newline
        ++ u "- hollywood: Only English/Western pop songs" ++ newline
        ++ u "- tollywood: Only Telugu cinema songs" ++ newline
        ++ u "- kpop: Only Korean pop songs" ++ newline
        ++ u "- any: Mix from different regions" ++ newline
        ++ newline
        ++ u "Provide captions as single lines and songs with title and artist.").
  assert (E : build_prompt num length tone region mood
              = a ++ u "Tone: " ++ tone_read_back tone region mood
                  ++ u "." ++ rest).
  { unfold build_prompt, a, rest, tone_read_back, region_read_back.
    rewrite <- !app_assoc. do 40 f_equal. }
  rewrite E. destruct (digit_of_count num Hnum) as (d & Ed & _ & Nd & _).
  apply prompt_param_split.
  - discriminate.
  - apply existsb_not_in. reflexivity.
  - unfold a. rewrite Ed, <- !app_assoc. skip_chunks. reflexivity.
  - unfold tone_read_back, region_read_back. skip_chunks. reflexivity.
  - unfold tone_read_back, region_read_back. no_period.
Qed.

Lemma length_of_route_prompt (num : Z) (length tone region mood : str) :
  1 <= num <= 6 ->
  Forall (fun c => lowercase c = true) length ->
  Forall (fun c => lowercase c = true) tone ->
  Forall (fun c => lowercase c = true) region ->
  Forall (fun c => lowercase c = true) mood ->
  prompt_param (u "Caption length: ") (u "medium")
    (build_prompt num length tone region mood)
  = Ok (strip (length_read_back length tone region mood)).
Proof.
  intros Hnum Hl Ht Hr Hm.
  set (a := u "You are a social-media assistant. I will provide a photo. Generate "
        ++ str_of_int num ++ u " caption suggestions and " ++ str_of_int num
        ++ u " song suggestions." ++ newline
        ++ newline
        ++ u "CRITICAL REQUIREMENTS:" ++ newline ++ u "- ").
  set (rest := u "R. Rahman, etc.)"
        ++ newline
        ++ u "- hollywood: Only English/Western pop songs" ++ newline
        ++ u "- tollywood: Only Telugu cinema songs" ++ newline
        ++ u "- kpop: Only Korean pop songs" ++ newline
        ++ u "- any: Mix from different regions" ++ newline
        ++ newline
        ++ u "Provide captions as single lines and songs with title and artist.").
  assert (E : build_prompt num length tone region mood
              = a ++ u "Caption length: "
                  ++ length_read_back length tone region mood
                  ++ u "." ++ rest).
  { unfold build_prompt, a, rest, length_read_back, tone_read_back,
      region_read_back.
    rewrite <- !app_assoc. do 40 f_equal. }
  rewrite E. destruct (digit_of_count num Hnum) as (d & Ed & _ & _ & Nd).
  apply prompt_param_split.
  - discriminate.
  - apply existsb_not_in. reflexivity.
  - unfold a. rewrite Ed, <- !app_assoc. skip_chunks. reflexivity.
  - unfold length_read_back, tone_read_back, region_read_back.
    skip_chunks. reflexivity.
  - unfold length_read_back, tone_read_back, region_read_back. no_period.
Qed.

Lemma read_back_differs (x y : str) :
  Forall (fun c => lowercase c = true) y -> strip (x ++ [65%N]) <> y.
Proof.
  intros Hy E. rewrite strip_keeps_last in E by reflexivity.
  apply (lowercase_not_in 65%N y); [reflexivity|assumption|].
  rewrite <- E. apply in_or_app. right. now left.
Qed.

(** The route does not close the values it writes into the prompt with a
    period, so [call_gemini] reads none of them back: for a count between 1
    and 6 and fields of lower-case letters, what it takes for the region, the
    mood, the tone and the length is the field followed by the rest of the
    prompt up to the period in "A.R. Rahman", and differs from the field. *)
Theorem route_params_not_read_back (num : Z) (length tone region mood : str) :
  1 <= num <= 6 ->
  Forall (fun c => lowercase c = true) length ->
  Forall (fun c => lowercase c = true) tone ->
  Forall (fun c => lowercase c = true) region ->
  Forall (fun c => lowercase c = true) mood ->
  exists region' mood' tone' length',
    prompt_params (build_prompt num length tone region mood)
    = Ok (region', mood', tone', length')
    /\ region' = strip (region_read_back region mood)
    /\ mood' = strip (mood_read_back region mood)
    /\ tone' = strip (tone_read_back tone region mood)
    /\ length' = strip (length_read_back length tone region mood)
    /\ region' <> region /\ mood' <> mood
    /\ tone' <> tone /\ length' <> length.
Proof.
  intros Hnum Hl Ht Hr Hm. unfold prompt_params.
  destruct (region_of_route_prompt num length tone region mood) as [-> _];
    try assumption.
  rewrite mood_of_route_prompt, tone_of_route_prompt, length_of_route_prompt
    by assumption.
  cbn [bind]. do 4 eexists. split; [reflexivity|].
  do 4 (split; [reflexivity|]).
  unfold length_read_back, tone_read_back, mood_read_back, region_read_back.
  change (u "- bollywood: Only Hindi/Bollywood songs (Arijit Singh, Shreya Ghoshal, A")
    with (u "- bollywood: Only Hindi/Bollywood songs (Arijit Singh, Shreya Ghoshal, "
          ++ [65%N]).
  rewrite !app_assoc.
  repeat split; now apply read_back_differs.
Qed.

(** *** The further properties at concrete inputs *)

Lemma route_status_of_upload_witness :
  (exists caps sngs,
     generate ascii_lower decimal_int
       (loads_table [(dashed_json, dashed_value)]) (Some (u "key"))
       (answers dashed_json) (fun name => name) splitext
       (photo_request (Some (u "3")))
     = Ok (200, ResultBody caps sngs))
  /\ generate ascii_lower decimal_int
       (loads_table [(dashed_json, dashed_value)]) (Some (u "key"))
       (answers dashed_json) (fun name => name) splitext
       (mkRequest (Some (u "clip.GIF", png)) None None None None None)
     = Ok (400, ErrorBody (u "Unsupported file type")).
Proof.
  split.
  - destruct (route_status_of_upload ascii_lower decimal_int
                (loads_table [(dashed_json, dashed_value)]) (Some (u "key"))
                (answers dashed_json) (fun name => name) splitext
                (photo_request (Some (u "3")))) as (_ & _ & _ & H).
    exact (H (u "photo.png") png eq_refl ltac:(discriminate)
             ltac:(right; right; left; reflexivity)).
  - destruct (route_status_of_upload ascii_lower decimal_int
                (loads_table [(dashed_json, dashed_value)]) (Some (u "key"))
                (answers dashed_json) (fun name => name) splitext
                (mkRequest (Some (u "clip.GIF", png)) None None None None None))
      as (_ & _ & H & _).
    apply (H (u "clip.GIF") png eq_refl); [discriminate|].
    intros [E|[E|[E|[]]]]; discriminate E.
Defined.

Lemma route_answer_bounded_witness :
  size (VList [VStr (u "Only one")]) <= 3 /\ len (@nil value) <= 3.
Proof.
  destruct (route_answer_bounded ascii_lower decimal_int
              (loads_table [(short_json, short_value)]) (Some (u "key"))
              (answers short_json) (fun name => name) splitext
              (photo_request (Some (u "3")))
              (VList [VStr (u "Only one")]) []
              ltac:(vm_compute; reflexivity))
    as (_ & H1 & H2 & _).
  exact (conj H1 H2).
Defined.

Lemma route_mock_answer_witness :
  exists caps sngs,
    generate ascii_lower decimal_int (loads_table []) None
      (answers []) (fun name => name) splitext (photo_request (Some (u "4")))
    = Ok (200, ResultBody (VList caps) sngs)
    /\ len caps = 4 /\ len sngs = 4.
Proof.
  destruct (route_mock_answer ascii_lower decimal_int (loads_table []) None
              (answers []) (fun name => name) splitext
              (photo_request (Some (u "4"))) (u "photo.png") png
              eq_refl ltac:(discriminate)
              ltac:(right; right; left; reflexivity)
              (or_introl eq_refl))
    as (caps & sngs & _ & E & Lc & Ls).
  exists caps, sngs. split; [exact E|]. split; [exact Lc|exact Ls].
Defined.


Lemma recovery_without_headers_witness :
  parse_gemini_response ascii_lower
    (u "Here you go" ++ newline ++ u "Golden Hour by Joji") 2
  = get_mock_response ascii_lower [] 2.
Proof.
  apply recovery_without_headers.
  repeat (constructor; [split; reflexivity|]). constructor.
Defined.


Lemma adapter_without_braces_witness :
  call_gemini ascii_lower (loads_table []) (Some (u "key")) (answers dash_lines)
    (u "hello") png 1
  = parse_gemini_response ascii_lower (strip dash_lines) 1.
Proof.
  apply adapter_without_braces; [reflexivity|reflexivity|].
  left. apply existsb_not_in. reflexivity.
Defined.

Lemma adapter_missing_key_witness :
  call_gemini ascii_lower (loads_table [(no_songs_json, no_songs_value)])
    (Some (u "key")) (answers no_songs_json) (u "hello") png 2
  = parse_gemini_response ascii_lower (strip no_songs_json) 2.
Proof.
  exact (adapter_missing_key ascii_lower
           (loads_table [(no_songs_json, no_songs_value)]) (Some (u "key"))
           (answers no_songs_json) (u "hello") png 2 no_songs_json
           [(u "captions", VList [VStr (u "A day out")])]
           eq_refl eq_refl eq_refl (or_intror eq_refl)).
Defined.

Lemma adapter_unsliceable_value_witness :
  call_gemini ascii_lower (loads_table [(number_json, number_value)])
    (Some (u "key")) (answers number_json) (u "hello") png 2
  = get_mock_response ascii_lower (u "hello") 2.
Proof.
  exact (adapter_unsliceable_value ascii_lower
           (loads_table [(number_json, number_value)]) (Some (u "key"))
           (answers number_json) (u "hello") png 2 number_json
           [(u "captions", VInt 5); (u "songs", VList [])] (VInt 5) (VList [])
           eq_refl eq_refl ltac:(vm_compute; discriminate)
           ltac:(vm_compute; discriminate) eq_refl eq_refl eq_refl
           (or_introl eq_refl)).
Defined.

Lemma json_path_keeps_and_drops_witness :
  exists r,
    call_gemini ascii_lower (loads_table [(mixed_json, mixed_value)])
      (Some (u "key")) (answers mixed_json) (u "hello") png 3 = Ok r
    /\ List.length (songs r) = 2%nat.
Proof.
  destruct (json_path_keeps_and_drops ascii_lower
              (loads_table [(mixed_json, mixed_value)]) (Some (u "key"))
              (answers mixed_json) (u "hello") png 3 mixed_json
              [(u "captions", VList [VStr (u "A day out")]);
               (u "songs",
                VList [VDict [(u "title", VStr (u "Stay"));
                              (u "artist", VStr (u "Rihanna"));
                              (u "year", VInt 2012)];
                       VInt 7;
                       VStr (u "Solo")])]
              [VStr (u "A day out")]
              [VDict [(u "title", VStr (u "Stay"));
                      (u "artist", VStr (u "Rihanna"));
                      (u "year", VInt 2012)];
               VInt 7;
               VStr (u "Solo")]
              eq_refl eq_refl ltac:(vm_compute; discriminate)
              ltac:(vm_compute; discriminate) eq_refl eq_refl eq_refl)
    as (r & E & _ & L & _).
  exists r. split; [exact E|exact L].
Defined.


Lemma mock_prefix_witness :
  exists caps sngs,
    get_mock_response ascii_lower (u "kpop night") 6
    = Ok {| captions := VList caps; songs := sngs |}
    /\ get_mock_response ascii_lower (u "kpop night") 2
       = Ok {| captions := VList (upto 2 caps); songs := upto 2 sngs |}.
Proof.
  exact (mock_prefix ascii_lower (u "kpop night") 2 6 ltac:(lia)).
Defined.

Lemma mock_no_repeats_witness :
  exists caps sngs,
    get_mock_response ascii_lower (u "kpop night") 6
    = Ok {| captions := VList caps; songs := sngs |}
    /\ NoDup caps /\ NoDup sngs.
Proof.
  exact (mock_no_repeats ascii_lower (u "kpop night") 6 ltac:(lia)).
Defined.

Lemma mock_period_seven_witness :
  exists caps sngs c s,
    get_mock_response ascii_lower (u "kpop night") 9
    = Ok {| captions := VList caps; songs := sngs |}
    /\ index caps 1 = Ok c /\ index caps (1 + 7) = Ok c
    /\ index sngs 1 = Ok s /\ index sngs (1 + 7) = Ok s.
Proof.
  exact (mock_period_seven ascii_lower (u "kpop night") 9 1
           ltac:(lia) ltac:(lia)).
Defined.

Lemma prompt_param_reads_back_witness :
  prompt_param (u "Song region: ") (u "any")
    (u "Caption tone: moody. " ++ u "Song region: " ++ u " kpop " ++ u "."
     ++ u " Song mood: party.")
  = Ok (u "kpop").
Proof.
  exact (prompt_param_reads_back (u "Song region: ") (u "any")
           (u "Caption tone: moody. ") (u " kpop ") (u " Song mood: party.")
           ltac:(discriminate)
           ltac:(apply existsb_not_in; reflexivity)
           eq_refl eq_refl
           ltac:(apply existsb_not_in; reflexivity)).
Defined.

Lemma route_params_not_read_back_witness :
  exists region' mood' tone' length',
    prompt_params (build_prompt 3 (u "medium") (u "aesthetic") (u "kpop")
                     (u "chill"))
    = Ok (region', mood', tone', length')
    /\ region' <> u "kpop".
Proof.
  destruct (route_params_not_read_back 3 (u "medium") (u "aesthetic")
              (u "kpop") (u "chill") ltac:(lia)
              ltac:(repeat (constructor; [reflexivity|]); constructor)
              ltac:(repeat (constructor; [reflexivity|]); constructor)
              ltac:(repeat (constructor; [reflexivity|]); constructor)
              ltac:(repeat (constructor; [reflexivity|]); constructor))
    as (r & m & t & l & E & _ & _ & _ & _ & Hr & _).
  exists r, m, t, l. split; [exact E|exact Hr].
Defined.
